(** * TinaCMS storage adapters and connection resolver

    A shallow embedding of
    - [packages/tinacms/src/utils/parseUrl.ts]                      (connection resolver),
    - [packages/@tinacms/graphql/src/database/bridge/fauna.ts]      (Fauna bridge, query-DSL
      revision and REST revision),
    - [packages/@tinacms/datalayer/src/database/bridge/fauna.ts]    (Fauna bridge, REST),
    - [packages/@tinacms/datalayer/src/database/store/fauna.ts]     (FaunaStore, two revisions),
    followed by the properties established about them.

    Conventions.  A JavaScript string is a Rocq [string]; [null] and [undefined]
    of an optional field are [None]; a function that may throw returns
    [exn + A]; an [async] method that performs round trips is a computation in
    the monad [M] below, which threads the state of the outside world and a
    possible rejection. *)

From Stdlib Require Import String Ascii List Bool Arith Lia.
Import ListNotations.
Open Scope string_scope.
Set Warnings "-register-all,-abstract-large-number".

(* ===================================================================== *)
(** * Part I: definitions                                                 *)
(* ===================================================================== *)

(** ** JavaScript runtime: values, thrown values, strings *)

(** What a [throw] carries.  [Error name message] is an instance of the class
    [name] (itself [Error] or one of its subclasses); [GraphQLError] is the
    [graphql] package's error, with the [originalError] and the
    [extensions.status] the bridge passes to it; [Thrown] is a thrown value
    that is not an [Error] instance. *)
Inductive exn : Type :=
| Error (name message : string)
| GraphQLError (message : string) (originalError : option exn) (status : string)
| Thrown (v : string).

(** [e instanceof Error] *)
Definition instanceof_Error (e : exn) : bool :=
  match e with
  | Thrown _ => false
  | _ => true
  end.

(** [e.message], for an [Error] instance *)
Definition message_of (e : exn) : string :=
  match e with
  | Error _ m => m
  | GraphQLError m _ _ => m
  | Thrown _ => ""
  end.

(** JSON values, extended with [undefined]. *)
Inductive value : Type :=
| VUndefined
| VNull
| VBool (b : bool)
| VNum (n : nat)
| VStr (s : string)
| VArr (l : list value)
| VObj (fields : list (string * value)).

(** [String.prototype.includes]: [includes s searchString] is
    [s.includes(searchString)]. *)
Fixpoint includes (s searchString : string) : bool :=
  String.prefix searchString s ||
  match s with
  | EmptyString => false
  | String _ rest => includes rest searchString
  end.

(** [s.startsWith(p)] *)
Definition startsWith (s p : string) : bool := String.prefix p s.

(** Truthiness of an optional string: [undefined], [null] and [''] are falsy. *)
Definition truthy (o : option string) : bool :=
  match o with
  | None => false
  | Some "" => false
  | Some _ => true
  end.

Definition ascii_in (lo hi c : ascii) : bool :=
  Nat.leb (nat_of_ascii lo) (nat_of_ascii c) && Nat.leb (nat_of_ascii c) (nat_of_ascii hi).

Definition is_lower (c : ascii) : bool := ascii_in "a" "z" c.
Definition is_upper (c : ascii) : bool := ascii_in "A" "Z" c.
Definition is_digit (c : ascii) : bool := ascii_in "0" "9" c.
Definition is_alnum (c : ascii) : bool := is_lower c || is_upper c || is_digit c.

Definition to_lower (c : ascii) : ascii :=
  if is_upper c then ascii_of_nat (nat_of_ascii c + 32) else c.

Fixpoint lowercase (s : string) : string :=
  match s with
  | EmptyString => EmptyString
  | String c r => String (to_lower c) (lowercase r)
  end.

(** [strip_prefix p s]: the rest of [s] after its prefix [p], if [s] starts with [p]. *)
Fixpoint strip_prefix (p s : string) : option string :=
  match p, s with
  | EmptyString, _ => Some s
  | String a p', String b s' => if Ascii.eqb a b then strip_prefix p' s' else None
  | String _ _, EmptyString => None
  end.

(** [break stop s]: the longest prefix of [s] free of characters satisfying
    [stop], and what follows it. *)
Fixpoint break (stop : ascii -> bool) (s : string) : string * string :=
  match s with
  | EmptyString => (EmptyString, EmptyString)
  | String c r =>
      if stop c then (EmptyString, s)
      else let (a, b) := break stop r in (String c a, b)
  end.

Fixpoint forallb_string (p : ascii -> bool) (s : string) : bool :=
  match s with
  | EmptyString => true
  | String c r => p c && forallb_string p r
  end.

(** ** The platform's [URL] class

    [new URL(url)] is the WHATWG parser of the host platform, not code of this
    repository.  [parseURL] is written over an arbitrary parser ([Section
    ParseUrl] below); the model here covers the hierarchical shape
    [scheme://host[:port][/path][?query][#fragment]] without user info,
    percent-encoding or dot-segment normalisation, and reports everything else
    as invalid.  It serves to run [parseURL] on concrete connection strings. *)
Module URL.

Record t : Type := mk {
  protocol : string;   (* with the trailing colon *)
  host : string;       (* hostname, and ":port" unless it is the scheme's default *)
  pathname : string
}.

Definition invalid : exn := Error "TypeError" "Invalid URL".

Definition is_scheme_char (c : ascii) : bool :=
  is_alnum c || Ascii.eqb c "+" || Ascii.eqb c "-" || Ascii.eqb c ".".

Definition is_special (scheme : string) : bool :=
  String.eqb scheme "http" || String.eqb scheme "https" ||
  String.eqb scheme "ws" || String.eqb scheme "wss" || String.eqb scheme "ftp".

Definition default_port (scheme : string) : string :=
  if String.eqb scheme "http" || String.eqb scheme "ws" then "80"
  else if String.eqb scheme "https" || String.eqb scheme "wss" then "443"
  else if String.eqb scheme "ftp" then "21"
  else "".

Definition ends_authority (c : ascii) : bool :=
  Ascii.eqb c "/" || Ascii.eqb c "?" || Ascii.eqb c "#".

Definition ends_path (c : ascii) : bool :=
  Ascii.eqb c "?" || Ascii.eqb c "#".

Definition starts_alpha (s : string) : bool :=
  match s with
  | String c _ => is_lower c || is_upper c
  | EmptyString => false
  end.

Definition parse (url : string) : exn + t :=
  let (scheme0, after_scheme) := break (fun c => negb (is_scheme_char c)) url in
  let scheme := lowercase scheme0 in
  if negb (starts_alpha scheme0) then inl invalid else
  match strip_prefix "://" after_scheme with
  | None => inl invalid
  | Some rest =>
      let (authority, after_authority) := break ends_authority rest in
      let (path, _) := break ends_path after_authority in
      let (hostname0, port0) := break (fun c => Ascii.eqb c ":") authority in
      let hostname := lowercase hostname0 in
      let port := match port0 with String _ p => p | EmptyString => "" end in
      if includes authority "@" then inl invalid
      else if negb (forallb_string is_digit port) then inl invalid
      else if is_special scheme && String.eqb hostname "" then inl invalid
      else
        inr {| protocol := scheme ++ ":";
               host := if String.eqb port "" || String.eqb port (default_port scheme)
                       then hostname else hostname ++ ":" ++ port;
               pathname := if is_special scheme && String.eqb path "" then "/" else path |}
  end.

End URL.

(** ** The [url-pattern] package

    [new UrlPattern(pattern, options)] compiles a pattern made of static text,
    named segments [:name] and wildcards [*] to the regular expression
    [^...$] in which a named segment is [([a-zA-Z0-9-_~ %]+)] and a wildcard is
    [(.*?)]; [match] runs it and returns the captures keyed by segment name
    (a wildcard is keyed [_]), or [null].  Optional segments [( )] are not used
    by this repository and are rejected by the model. *)
Module UrlPattern.

Inductive node : Type :=
| Static (text : string)
| Named (name : string)
| Wildcard.

Record options : Type := { escapeChar : ascii }.

Definition empty_argument : exn := Error "Error" "argument must not be the empty string".
Definition whitespace_argument : exn := Error "Error" "argument must not contain whitespace".
Definition syntax_error : exn := Error "Error" "couldn't parse pattern".

(** The white space of [\s] among the ASCII characters. *)
Definition is_space (c : ascii) : bool :=
  Ascii.eqb c " " || ascii_in "009" "013" c.

Fixpoint existsb_string (p : ascii -> bool) (s : string) : bool :=
  match s with
  | EmptyString => false
  | String c r => p c || existsb_string p r
  end.

Definition flush (static : string) (rest : list node) : list node :=
  match static with
  | EmptyString => rest
  | _ => Static static :: rest
  end.

(** The package's parser: [static] is the static text read so far, [name] the
    segment name being read, if any. *)
Fixpoint parse_from (esc : ascii) (static : string) (name : option string)
  (s : string) : option (list node) :=
  match name with
  | Some n =>
      match s with
      | String c r =>
          if is_alnum c then parse_from esc static (Some (n ++ String c "")) r
          else if String.eqb n "" then None
          else if Ascii.eqb c ":" then
            option_map (cons (Named n)) (parse_from esc "" (Some "") r)
          else if Ascii.eqb c "*" then
            option_map (fun ns => Named n :: Wildcard :: ns) (parse_from esc "" None r)
          else if Ascii.eqb c "(" || Ascii.eqb c ")" then None
          else if Ascii.eqb c esc then
            match r with
            | String d r' =>
                option_map (cons (Named n)) (parse_from esc (String d "") None r')
            | EmptyString => Some [Named n; Static (String c "")]
            end
          else option_map (cons (Named n)) (parse_from esc (String c "") None r)
      | EmptyString => if String.eqb n "" then None else Some [Named n]
      end
  | None =>
      match s with
      | String c r =>
          if Ascii.eqb c ":" then
            option_map (flush static) (parse_from esc "" (Some "") r)
          else if Ascii.eqb c "*" then
            option_map (fun ns => flush static (Wildcard :: ns)) (parse_from esc "" None r)
          else if Ascii.eqb c "(" || Ascii.eqb c ")" then None
          else if Ascii.eqb c esc then
            match r with
            | String d r' => parse_from esc (static ++ String d "") None r'
            | EmptyString => Some (flush (static ++ String c "") [])
            end
          else parse_from esc (static ++ String c "") None r
      | EmptyString => Some (flush static [])
      end
  end.

Definition t : Type := list node.

(** [new UrlPattern(pattern, options)] *)
Definition new (pattern : string) (o : options) : exn + t :=
  if String.eqb pattern "" then inl empty_argument
  else if existsb_string is_space pattern then inl whitespace_argument
  else
    match parse_from (escapeChar o) "" None pattern with
    | Some ns => inr ns
    | None => inl syntax_error
    end.

(** The default [segmentValueCharset], [a-zA-Z0-9-_~ %]. *)
Definition segmentValueChar (c : ascii) : bool :=
  is_alnum c || Ascii.eqb c "-" || Ascii.eqb c "_" || Ascii.eqb c "~" ||
  Ascii.eqb c " " || Ascii.eqb c "%".

(** What [.] matches: anything but a line terminator. *)
Definition dot (c : ascii) : bool :=
  negb (Ascii.eqb c "010" || Ascii.eqb c "013").

Definition capture (text : string) (k : option (list string)) : option (list string) :=
  option_map (cons text) k.

(** [([charset]+)] followed by the continuation [k]: greedy, giving characters
    back when the continuation fails.  [taken] is the non-empty text the
    group holds so far. *)
Fixpoint named_from (k : string -> option (list string)) (taken s : string)
  : option (list string) :=
  match s with
  | String c r =>
      if segmentValueChar c then
        match named_from k (taken ++ String c "") r with
        | Some caps => Some caps
        | None => capture taken (k s)
        end
      else capture taken (k s)
  | EmptyString => capture taken (k s)
  end.

Definition match_named (k : string -> option (list string)) (s : string)
  : option (list string) :=
  match s with
  | String c r => if segmentValueChar c then named_from k (String c "") r else None
  | EmptyString => None
  end.

(** [(.*?)] followed by the continuation [k]: lazy, taking one more character
    each time the continuation fails. *)
Fixpoint wildcard_from (k : string -> option (list string)) (taken s : string)
  : option (list string) :=
  match capture taken (k s) with
  | Some caps => Some caps
  | None =>
      match s with
      | String c r => if dot c then wildcard_from k (taken ++ String c "") r else None
      | EmptyString => None
      end
  end.

Fixpoint match_nodes (ns : list node) : string -> option (list string) :=
  match ns with
  | [] => fun s => match s with EmptyString => Some [] | _ => None end
  | n :: ns' =>
      let k := match_nodes ns' in
      match n with
      | Static text =>
          fun s => match strip_prefix text s with Some r => k r | None => None end
      | Named _ => match_named k
      | Wildcard => wildcard_from k ""
      end
  end.

Fixpoint names (ns : list node) : list string :=
  match ns with
  | [] => []
  | Static _ :: ns' => names ns'
  | Named n :: ns' => n :: names ns'
  | Wildcard :: ns' => "_" :: names ns'
  end.

(** [pattern.match(url)]: [None] is [null], [Some o] the object of captures. *)
Definition match_ (pattern : t) (url : string) : option (list (string * string)) :=
  option_map (combine (names pattern)) (match_nodes pattern url).

(** [o[key]], [None] being [undefined] *)
Fixpoint prop (key : string) (o : list (string * string)) : option string :=
  match o with
  | [] => None
  | (k, v) :: o' => if String.eqb k key then Some v else prop key o'
  end.

End UrlPattern.

(** ** [packages/tinacms/src/utils/parseUrl.ts] *)

Definition TINA_HOST : string := "content.tinajs.io".

Record Connection : Type := {
  branch : option string;
  isLocalClient : bool;
  clientId : option string;
  isFaunaClient : bool;
  faunaContentUrl : option string
}.

Definition invalid_format (url : string) : exn :=
  Error "Error"
    ("Invalid URL format provided. Expected: https://content.tinajs.io/content/<ClientID>/github/<Branch> but but received " ++ url).

Section ParseUrl.

(** [new URL(url)] of the platform the code runs on. *)
Variable new_URL : string -> exn + URL.t.

Definition parseURL (url : string) : exn + Connection :=
  if includes url "localhost" then
    inr {| branch := None;
           isLocalClient := true;
           clientId := None;
           isFaunaClient := false;
           faunaContentUrl := None |}
  else
    match new_URL url with
    | inl e => inl e
    | inr params =>
        match UrlPattern.new "/content/:clientId/github/*"
                {| UrlPattern.escapeChar := " " |} with
        | inl e => inl e
        | inr pattern =>
            let result := UrlPattern.match_ pattern (URL.pathname params) in
            let branch := match result with
                          | Some o => UrlPattern.prop "_" o
                          | None => None
                          end in
            let clientId := match result with
                            | Some o => UrlPattern.prop "clientId" o
                            | None => None
                            end in
            if negb (String.eqb (URL.host params) TINA_HOST) then
              inr {| branch := None;
                     isLocalClient := false;
                     clientId := None;
                     isFaunaClient := true;
                     faunaContentUrl := Some url |}
            else if negb (truthy branch) || negb (truthy clientId) then
              inl (invalid_format url)
            else
              inr {| branch := branch;
                     clientId := clientId;
                     isLocalClient := false;
                     isFaunaClient := false;
                     faunaContentUrl := None |}
        end
    end.

End ParseUrl.

(** ** Asynchronous methods

    An [async] method is a computation over the state [W] of the outside
    world: it ends with a value or with a rejection, and leaves a world. *)

Definition M (W A : Type) : Type := W -> (exn + A) * W.

Definition ret {W A : Type} (a : A) : M W A := fun w => (inr a, w).

Definition throw {W A : Type} (e : exn) : M W A := fun w => (inl e, w).

Definition bind {W A B : Type} (m : M W A) (k : A -> M W B) : M W B :=
  fun w =>
    match m w with
    | (inr a, w') => k a w'
    | (inl e, w') => (inl e, w')
    end.

(** [try { m } catch (e) { h e }] *)
Definition try_catch {W A : Type} (m : M W A) (h : exn -> M W A) : M W A :=
  fun w =>
    match m w with
    | (inl e, w') => h e w'
    | r => r
    end.

(** A step that may throw without touching the world. *)
Definition lift {W A : Type} (r : exn + A) : M W A := fun w => (r, w).

Declare Scope async_scope.
Delimit Scope async_scope with async.
Notation "x <- m ;; k" := (bind m (fun x => k))
  (at level 61, m at next level, right associativity) : async_scope.
Notation "m ;;; k" := (bind m (fun _ => k))
  (at level 61, right associativity) : async_scope.
Open Scope async_scope.

(** The outside world of a bridge: the [backend]'s state, the fate [pending]
    for each of the coming round trips (an empty list: every round trip goes
    through), and the number [trips] of round trips made so far. *)
Record World (St O : Type) : Type := mkWorld {
  backend : St;
  pending : list O;
  trips : nat
}.
Arguments mkWorld {St O}.
Arguments backend {St O}.
Arguments pending {St O}.
Arguments trips {St O}.

(** Starts one round trip: its fate, and the world in which it has been made. *)
Definition next_trip {St O : Type} (w : World St O) : option O * World St O :=
  (hd_error (pending w),
   {| backend := backend w; pending := tl (pending w); trips := S (trips w) |}).

Definition with_backend {St O : Type} (w : World St O) (s : St) : World St O :=
  {| backend := s; pending := pending w; trips := trips w |}.

(** [a !== undefined] *)
Definition defined (v : value) : bool :=
  match v with
  | VUndefined => false
  | _ => true
  end.

(** [o[key]] on an object's own fields *)
Fixpoint field (key : string) (fields : list (string * value)) : value :=
  match fields with
  | [] => VUndefined
  | (k, v) :: rest => if String.eqb k key then v else field key rest
  end.

(** [v.data]: reading a property of [null] or [undefined] throws, a JSON
    value other than an object has no [data]. *)
Definition dot_data (v : value) : exn + value :=
  match v with
  | VUndefined => inl (Error "TypeError" "Cannot read properties of undefined (reading 'data')")
  | VNull => inl (Error "TypeError" "Cannot read properties of null (reading 'data')")
  | VObj fields => inr (field "data" fields)
  | _ => inr VUndefined
  end.

(** ** The Fauna query language, as far as the bridge uses it

    A query is evaluated by the database in one transaction: a computation
    over the collection.  Documents have the shape the bridge's header
    documents, [data: {filename, page}]; a collection is the list of its
    documents in the order of their references, and a reference is a position
    in it. *)
Module Fauna.

Record Document : Type := { filename : string; page : string }.

Definition Collection : Type := list Document.

Definition Ref : Type := nat.

Definition Query (A : Type) : Type := M Collection A.

Definition NotFound : exn := Error "NotFound" "instance not found".
Definition Unauthorized : exn := Error "Unauthorized" "unauthorized".

(** *** Regular expressions of [FindStrRegex]

    The patterns are Java regular expressions.  The model covers a pattern
    that starts with the anchor [^] and goes on with literal characters and
    [.]; a pattern that uses another metacharacter is outside it and reported
    as [unmodelled]. *)
Inductive atom : Type :=
| Lit (c : ascii)
| AnyChar.

Definition metachars : string := "\^$.|?*+()[]{}".

Definition is_meta (c : ascii) : bool := includes metachars (String c "").

(** No character of [s] is special in a regular expression. *)
Definition literal (s : string) : bool := forallb_string (fun c => negb (is_meta c)) s.

Fixpoint atoms (s : string) : option (list atom) :=
  match s with
  | EmptyString => Some []
  | String c r =>
      if Ascii.eqb c "." then option_map (cons AnyChar) (atoms r)
      else if is_meta c then None
      else option_map (cons (Lit c)) (atoms r)
  end.

Definition unmodelled : exn := Thrown "regular expression outside the modelled fragment".

(** The text that the atoms match at the start of [s], if they do. *)
Fixpoint match_atoms (p : list atom) (s : string) : option string :=
  match p with
  | [] => Some ""
  | a :: p' =>
      match s with
      | EmptyString => None
      | String c r =>
          if match a with
             | Lit d => Ascii.eqb d c
             | AnyChar => negb (Ascii.eqb c "010" || Ascii.eqb c "013")
             end
          then option_map (String c) (match_atoms p' r)
          else None
      end
  end.

(** [FindStrRegex(value, pattern)]: the matches of [pattern] in [value]. *)
Definition FindStrRegex (value pattern : string) : exn + list string :=
  match pattern with
  | String "^" body =>
      match atoms body with
      | Some p =>
          match match_atoms p value with
          | Some m => inr [m]
          | None => inr []
          end
      | None => inl unmodelled
      end
  | _ => inl unmodelled
  end.

(** *** Sets, documents and pages *)

(** [Documents(Collection(c))] *)
Definition Documents : Query (list Ref) :=
  fun c => (inr (seq 0 (length c)), c).

(** What [Get] returns: the document's reference and its [data]. *)
Record Instance : Type := { ref : Ref; doc : Document }.

(** [Get(ref)] *)
Definition Get (r : Ref) : Query Instance :=
  fun c =>
    match nth_error c r with
    | Some d => (inr {| ref := r; doc := d |}, c)
    | None => (inl NotFound, c)
    end.

(** [Get(set)]: the first document of the set; an error when it is empty. *)
Definition GetFirst (set : list Ref) : Query Instance :=
  match set with
  | r :: _ => Get r
  | [] => throw NotFound
  end.

(** [IsEmpty(set)] *)
Definition IsEmpty {A : Type} (set : list A) : bool :=
  match set with
  | [] => true
  | _ => false
  end.

(** [Match(Index('page_by_filename'), term)]: the index has [data.filename]
    as its only term. *)
Definition refs_where (p : Document -> bool) (c : Collection) : list Ref :=
  filter (fun r => match nth_error c r with Some d => p d | None => false end)
    (seq 0 (length c)).

Definition Match_page_by_filename (term : string) : Query (list Ref) :=
  fun c => (inr (refs_where (fun d => String.eqb (filename d) term) c), c).

(** [Filter(set, Lambda(x, test))] *)
Fixpoint Filter {A : Type} (set : list A) (test : A -> Query bool) : Query (list A) :=
  match set with
  | [] => ret []
  | x :: rest =>
      keep <- test x ;;
      kept <- Filter rest test ;;
      ret (if keep then x :: kept else kept)
  end.

(** [Map(page, Lambda(x, f))] *)
Fixpoint Map {A B : Type} (l : list A) (f : A -> Query B) : Query (list B) :=
  match l with
  | [] => ret []
  | x :: rest =>
      y <- f x ;;
      ys <- Map rest f ;;
      ret (y :: ys)
  end.

(** [Paginate(set, { size })]: the first page. *)
Definition Paginate {A : Type} (set : list A) (size : nat) : list A := firstn size set.

(** [Create(collection, { data })] *)
Definition Create (d : Document) : Query Instance :=
  fun c => (inr {| ref := length c; doc := d |}, (c ++ [d])%list).

Fixpoint replace_at (r : Ref) (d : Document) (c : Collection) : Collection :=
  match c, r with
  | [], _ => []
  | _ :: rest, O => d :: rest
  | x :: rest, S r' => x :: replace_at r' d rest
  end.

(** [Update(ref, { data })] *)
Definition Update (r : Ref) (d : Document) : Query Instance :=
  fun c =>
    match nth_error c r with
    | Some _ => (inr {| ref := r; doc := d |}, replace_at r d c)
    | None => (inl NotFound, c)
    end.

(** The result of the [readDir] query, [{ data: [...] }]. *)
Record Page : Type := { data : option (list string) }.

(** *** The client

    A round trip either delivers the query to the database or fails on the
    way (no connection, credentials rejected), in which case the driver throws
    the error.  A query that ends in an error leaves the collection as it was. *)
Inductive fate : Type :=
| Delivered
| Failed (e : exn).

Definition Client : Type := World Collection fate.

(** [faunaClient.query(expr)] *)
Definition query {A : Type} (expr : Query A) : M Client A :=
  fun w =>
    let (f, w') := next_trip w in
    match f with
    | Some (Failed e) => (inl e, w')
    | _ =>
        match expr (backend w') with
        | (inr a, c') => (inr a, with_backend w' c')
        | (inl e, _) => (inl e, w')
        end
    end.

End Fauna.

(** ** [packages/@tinacms/graphql/src/database/bridge/fauna.ts], query-DSL revision *)
Module QueryDSL.
Import Fauna.

Definition unauthorized_message : string :=
  "Unauthorized request to Fauna Database: please ensure your access token is valid.".

Definition unknown_message : string :=
  "Unknown error request to Fauna Database: please ensure your access token is valid.".

Definition page_size : nat := 12000.

(** The query of [readDir]. *)
Definition readDir_query (filepath : string) : Query Page :=
  docs <- Documents ;;
  matching <- Filter docs (fun doc =>
    d <- Get doc ;;
    found <- lift (FindStrRegex (filename (Fauna.doc d)) ("^" ++ filepath)) ;;
    ret (Nat.ltb 0 (length found))) ;;
  names <- Map (Paginate matching page_size) (fun docref =>
    d <- Get docref ;;
    ret (filename (Fauna.doc d))) ;;
  ret {| data := Some names |}.

Definition readDir (filepath : string) : M Client (list string) :=
  documents <- query (readDir_query filepath) ;;
  match data documents with
  | Some paths => ret paths
  | None => ret []
  end.

Definition supportsBuilding : bool := true.

Definition glob (pattern : string) : M Client value :=
  results <- readDir pattern ;;
  ret (VArr (map VStr results)).

(** The query of [get]. *)
Definition get_query (filepath : string) : Query value :=
  set <- Match_page_by_filename filepath ;;
  d <- GetFirst set ;;
  ret (VStr (page (Fauna.doc d))).

Definition get (filepath : string) : M Client value :=
  try_catch
    (page <- query (get_query filepath) ;;
     if defined page then ret page else ret (VStr ""))
    (fun e =>
       if instanceof_Error e then
         throw (GraphQLError unauthorized_message (Some e) (message_of e))
       else
         throw (GraphQLError unknown_message None "")).

(** The query of [put]. *)
Definition put_query (filepath data : string) : Query Instance :=
  matched <- Match_page_by_filename filepath ;;
  if IsEmpty matched then
    Create {| filename := filepath; page := data |}
  else
    d <- GetFirst matched ;;
    Update (ref d) {| filename := filepath; page := data |}.

Definition put (filepath data : string) : M Client value :=
  query (put_query filepath data) ;;;
  ret VUndefined.

Definition putConfig (filepath data : string) : M Client value :=
  put filepath data ;;;
  ret VUndefined.

End QueryDSL.

(** ** HTTP round trips

    [fetch] sends a request to a server, a function of the request and of the
    store it keeps.  A round trip is delivered to the server, or rejected
    (the promise of [fetch] rejects: no connection), or answered on the way
    by a response in which the store has no part (a gateway's error page, a
    rejection of the credentials). *)
Module Http.

(** A request body is text; [Json v] is the text [JSON.stringify(v)]. *)
Inductive Body : Type :=
| Text (s : string)
| Json (v : value).

Record Request : Type := {
  method : string;
  url : string;
  body : option Body
}.

(** [payload] is the body read as JSON, when it is JSON. *)
Record Response : Type := {
  status : nat;
  payload : option value
}.

(** [response.ok] *)
Definition ok (r : Response) : bool :=
  Nat.leb 200 (status r) && Nat.leb (status r) 299.

(** [response.json()] *)
Definition json {W : Type} (r : Response) : M W value :=
  match payload r with
  | Some v => ret v
  | None => throw (Error "SyntaxError" "Unexpected end of JSON input")
  end.

Inductive fate : Type :=
| Deliver
| Reject (e : exn)
| Answer (r : Response).

(** [{ ... }.toString()] of an object literal *)
Definition Object_toString (fields : list (string * value)) : string :=
  "[object Object]".

(** [s.split(sep)], for a separator of one character *)
Fixpoint split (sep : ascii) (s : string) : list string :=
  match s with
  | EmptyString => [EmptyString]
  | String c r =>
      if Ascii.eqb c sep then EmptyString :: split sep r
      else match split sep r with
           | piece :: pieces => String c piece :: pieces
           | [] => [String c EmptyString]
           end
  end.

Section Fetch.

Variable Store : Type.
Variable server : Request -> Store -> Response * Store.

Definition Net : Type := World Store fate.

Definition fetch (req : Request) : M Net Response :=
  fun w =>
    let (f, w') := next_trip w in
    match f with
    | Some (Reject e) => (inl e, w')
    | Some (Answer r) => (inr r, w')
    | _ =>
        let (r, s') := server req (backend w') in
        (inr r, with_backend w' s')
    end.

End Fetch.

Arguments fetch {Store}.

End Http.

(** ** [packages/@tinacms/graphql/src/database/bridge/fauna.ts], REST revision *)
Module RestGraphql.
Import Http.

Section Bridge.

Variable Store : Type.
Variable server : Request -> Store -> Response * Store.
(** [this.domain] *)
Variable domain : string.

Definition readDir (filepath : string) : M (Net Store) value :=
  response <- fetch server
    {| method := "POST";
       url := domain ++ "/page-dir";
       body := Some (Text (Object_toString [("filepath", VStr filepath)])) |} ;;
  documents <- json response ;;
  data <- lift (dot_data documents) ;;
  if defined data then ret data else ret (VArr []).

Definition supportsBuilding : bool := true.

Definition delete (filepath : string) : M (Net Store) value :=
  fetch server
    {| method := "DELETE";
       url := domain ++ "/page";
       body := Some (Text (Object_toString [("filepath", VStr filepath)])) |} ;;;
  ret VUndefined.

Definition glob (pattern : string) : M (Net Store) value :=
  results <- readDir pattern ;;
  ret results.

Definition get (filepath : string) : M (Net Store) value :=
  response <- fetch server
    {| method := "GET";
       url := domain ++ "/page?filepath=" ++ filepath;
       body := None |} ;;
  page <- json response ;;
  if defined page then ret page else ret (VStr "").

Definition put (filepath data : string) : M (Net Store) value :=
  let path := String.concat "/" (removelast (split "/" filepath)) in
  response <- fetch server
    {| method := "POST";
       url := domain ++ "/page";
       body := Some (Text (Object_toString
                 [("filename", VStr filepath); ("path", VStr path); ("data", VStr data)])) |} ;;
  json response ;;;
  ret VUndefined.

Definition putConfig (filepath data : string) : M (Net Store) value :=
  put filepath data ;;;
  ret VUndefined.

End Bridge.

End RestGraphql.

(** ** [packages/@tinacms/datalayer/src/database/bridge/fauna.ts] *)
Module RestDatalayer.
Import Http.

Section Bridge.

Variable Store : Type.
Variable server : Request -> Store -> Response * Store.
(** [this.domain] *)
Variable domain : string.

Definition readDir (filepath : string) : M (Net Store) value :=
  documents <- fetch server
    {| method := "POST";
       url := domain ++ "/page-dir";
       body := Some (Json (VObj [("filepath", VStr filepath)])) |} ;;
  if ok documents then
    result <- json documents ;;
    data <- lift (dot_data result) ;;
    if defined data then ret data else ret (VArr [])
  else ret (VArr []).

Definition supportsBuilding : bool := true.

Definition delete (filepath : string) : M (Net Store) value :=
  fetch server
    {| method := "DELETE";
       url := domain ++ "/page";
       body := Some (Json (VObj [("filepath", VStr filepath)])) |} ;;;
  ret VUndefined.

Definition glob (pattern : string) : M (Net Store) value :=
  results <- readDir pattern ;;
  ret results.

Definition get (filepath : string) : M (Net Store) value :=
  page <- fetch server
    {| method := "GET";
       url := domain ++ "/page?filepath=" ++ filepath;
       body := None |} ;;
  if ok page then json page else ret (VStr "").

Definition put (filepath data : string) : M (Net Store) value :=
  response <- fetch server
    {| method := "POST";
       url := domain ++ "/page";
       body := Some (Json (VObj [("filepath", VStr filepath); ("data", VStr data)])) |} ;;
  if ok response then json response else ret (VStr "").

Definition putConfig (filepath data : string) : M (Net Store) value :=
  put filepath data ;;;
  ret VUndefined.

End Bridge.

End RestDatalayer.

(** ** The bridge contract

    The [Bridge] interface the three classes implement ([./index], not part of
    the sources at hand) lists the operations below.  A class that does not
    define [delete] leaves the property [undefined]: [None]. *)
Module Bridge.

Record t (W : Type) : Type := {
  glob : string -> M W value;
  get : string -> M W value;
  put : string -> string -> M W value;
  putConfig : string -> string -> M W value;
  delete : option (string -> M W value);
  supportsBuilding : bool
}.
Arguments glob {W}.
Arguments get {W}.
Arguments put {W}.
Arguments putConfig {W}.
Arguments delete {W}.
Arguments supportsBuilding {W}.

End Bridge.

Definition query_dsl_bridge : Bridge.t Fauna.Client :=
  {| Bridge.glob := QueryDSL.glob;
     Bridge.get := QueryDSL.get;
     Bridge.put := QueryDSL.put;
     Bridge.putConfig := QueryDSL.putConfig;
     Bridge.delete := None;
     Bridge.supportsBuilding := QueryDSL.supportsBuilding |}.

Definition rest_graphql_bridge {Store : Type}
  (server : Http.Request -> Store -> Http.Response * Store) (domain : string)
  : Bridge.t (Http.Net Store) :=
  {| Bridge.glob := RestGraphql.glob Store server domain;
     Bridge.get := RestGraphql.get Store server domain;
     Bridge.put := RestGraphql.put Store server domain;
     Bridge.putConfig := RestGraphql.putConfig Store server domain;
     Bridge.delete := Some (RestGraphql.delete Store server domain);
     Bridge.supportsBuilding := RestGraphql.supportsBuilding |}.

Definition rest_datalayer_bridge {Store : Type}
  (server : Http.Request -> Store -> Http.Response * Store) (domain : string)
  : Bridge.t (Http.Net Store) :=
  {| Bridge.glob := RestDatalayer.glob Store server domain;
     Bridge.get := RestDatalayer.get Store server domain;
     Bridge.put := RestDatalayer.put Store server domain;
     Bridge.putConfig := RestDatalayer.putConfig Store server domain;
     Bridge.delete := Some (RestDatalayer.delete Store server domain);
     Bridge.supportsBuilding := RestDatalayer.supportsBuilding |}.

(** ** The service behind the REST bridges *)
Module Backend.
Import Http.

(** The store: payloads by path, the first entry of a path being the current one. *)
Definition Store : Type := list (string * string).

Fixpoint lookup (p : string) (st : Store) : option string :=
  match st with
  | [] => None
  | (k, v) :: rest => if String.eqb k p then Some v else lookup p rest
  end.

Definition remove (p : string) (st : Store) : Store :=
  filter (fun kv => negb (String.eqb (fst kv) p)) st.

Definition upsert (p v : string) (st : Store) : Store := (p, v) :: remove p st.

Definition paths (st : Store) : list string := map fst st.

Definition string_field (key : string) (b : option Body) : option string :=
  match b with
  | Some (Json (VObj fields)) =>
      match field key fields with
      | VStr s => Some s
      | _ => None
      end
  | _ => None
  end.

(** The value of the only parameter of a query string: what precedes the next
    parameter or the fragment (percent-decoding is left out). *)
Definition query_value (q : string) : string :=
  fst (break (fun c => Ascii.eqb c "&" || Ascii.eqb c "#") q).

Definition respond (v : value) : Response := {| status := 200; payload := Some v |}.
Definition bad_request : Response := {| status := 400; payload := None |}.
Definition no_route : Response := {| status := 404; payload := None |}.

(** Modelled from the spec: the service the REST bridges talk to is not part
    of the repository; this is the specification's backend, a map from path
    to payload, behind the wire shapes of its section 6:
    list [POST {endpoint}/page-dir] with body [{filepath}], answered by
    [{data: string[]}]; read [GET {endpoint}/page?filepath=<path>], answered by
    the payload or by an empty one; write [POST {endpoint}/page] with body
    [{filepath, data}], acknowledged; delete [DELETE {endpoint}/page] with body
    [{filepath}].  A request it cannot read is answered [400]. *)
Definition handle (endpoint : string) (req : Request) (st : Store) : Response * Store :=
  if String.eqb (method req) "POST" && String.eqb (url req) (endpoint ++ "/page-dir") then
    match string_field "filepath" (body req) with
    | Some q =>
        (respond (VObj [("data", VArr (map VStr (filter (fun p => startsWith p q) (paths st))))]),
         st)
    | None => (bad_request, st)
    end
  else if String.eqb (method req) "POST" && String.eqb (url req) (endpoint ++ "/page") then
    match string_field "filepath" (body req), string_field "data" (body req) with
    | Some p, Some v => (respond (VObj []), upsert p v st)
    | _, _ => (bad_request, st)
    end
  else if String.eqb (method req) "DELETE" && String.eqb (url req) (endpoint ++ "/page") then
    match string_field "filepath" (body req) with
    | Some p => (respond (VObj []), remove p st)
    | None => (bad_request, st)
    end
  else if String.eqb (method req) "GET" then
    match strip_prefix (endpoint ++ "/page?filepath=") (url req) with
    | Some q =>
        (respond (VStr (match lookup (query_value q) st with
                        | Some v => v
                        | None => ""
                        end)),
         st)
    | None => (no_route, st)
    end
  else (no_route, st).

End Backend.

(** ** [packages/@tinacms/datalayer/src/database/store/fauna.ts]

    Both revisions of [FaunaStore] extend [LevelStore] ([./level], not part of
    the sources at hand) and add nothing to its state: an instance is the
    state of its [LevelStore], built by [super(rootPath, useMemory)]. *)
Section Store.

Variable LevelStore : Type.
Variable LevelStore_new : string -> bool -> LevelStore.

Inductive revision : Type :=
| FirstRevision
| SecondRevision.

Record FaunaStore (r : revision) : Type := { super : LevelStore }.

(** [constructor(rootPath: string, useMemory: boolean = false)] *)
Definition FaunaStore_new (r : revision) (rootPath : string) (useMemory : option bool)
  : FaunaStore r :=
  {| super := LevelStore_new rootPath (match useMemory with Some b => b | None => false end) |}.

Definition supportsSeeding {r : revision} (this : FaunaStore r) : bool :=
  match r with
  | FirstRevision => true
  | SecondRevision => false
  end.

Definition supportsIndexing {r : revision} (this : FaunaStore r) : bool :=
  match r with
  | FirstRevision => false
  | SecondRevision => false
  end.

End Store.

Arguments supportsSeeding {LevelStore r} this.
Arguments supportsIndexing {LevelStore r} this.

(** The operations a bridge offers on a path and a payload. *)
Definition operations {W : Type} (b : Bridge.t W) (p v : string) : list (M W value) :=
  ([Bridge.glob b p; Bridge.get b p; Bridge.put b p v; Bridge.putConfig b p v] ++
   match Bridge.delete b with
   | Some del => [del p]
   | None => []
   end)%list.

(** The three variants the connection resolver tells apart. *)
Definition local_connection : Connection :=
  {| branch := None; isLocalClient := true; clientId := None;
     isFaunaClient := false; faunaContentUrl := None |}.

Definition hosted_connection (client branch_ : string) : Connection :=
  {| branch := Some branch_; isLocalClient := false; clientId := Some client;
     isFaunaClient := false; faunaContentUrl := None |}.

Definition fauna_connection (url : string) : Connection :=
  {| branch := None; isLocalClient := false; clientId := None;
     isFaunaClient := true; faunaContentUrl := Some url |}.

(** The round trip about to be made is not rejected.  [connected n w]: none
    of the next [n] round trips is. *)
Definition is_reject (f : Http.fate) : bool :=
  match f with
  | Http.Reject _ => true
  | _ => false
  end.

Definition connected {Store : Type} (n : nat) (w : Http.Net Store) : bool :=
  forallb (fun f => negb (is_reject f)) (firstn n (pending w)).

(** The query about to be sent reaches the database. *)
Definition delivered (w : Fauna.Client) : bool :=
  match pending w with
  | Fauna.Failed _ :: _ => false
  | _ => true
  end.

(** The error by which the query-DSL bridge reports rejected credentials. *)
Definition is_auth_error (e : exn) : bool :=
  match e with
  | GraphQLError m _ _ => String.eqb m QueryDSL.unauthorized_message
  | _ => false
  end.

(** The paths among [paths] that start with [q]. *)
Definition matching (q : string) (paths : list string) : list string :=
  filter (fun p => startsWith p q) paths.

(** No document of the collection has the file name [p]. *)
Definition absent (p : string) (c : Fauna.Collection) : bool :=
  negb (existsb (fun d => String.eqb (Fauna.filename d) p) c).

(** The file name behind a reference, [""] for a reference to nothing. *)
Definition name_at (c : Fauna.Collection) (r : Fauna.Ref) : string :=
  match nth_error c r with
  | Some d => Fauna.filename d
  | None => ""
  end.

(** Whether the array an operation returned lists the path [p]. *)
Definition lists (r : exn + value) (p : string) : bool :=
  match r with
  | inr (VArr l) =>
      existsb (fun v => match v with VStr s => String.eqb s p | _ => false end) l
  | _ => false
  end.

(** The names [doc/00000], [doc/00001], ... up to [doc/19999], in this order,
    and a collection of the first [n] of them. *)
Definition decimal : list ascii :=
  ["0"; "1"; "2"; "3"; "4"; "5"; "6"; "7"; "8"; "9"]%char.

Definition numbered_names : list string :=
  flat_map (fun a =>
    flat_map (fun b =>
      flat_map (fun c =>
        flat_map (fun d =>
          map (fun e => "doc/" ++ String a (String b (String c (String d (String e "")))))
            decimal)
          decimal)
        decimal)
      decimal)
    ["0"; "1"]%char.

Definition numbered_collection (n : nat) : Fauna.Collection :=
  map (fun name => {| Fauna.filename := name; Fauna.page := "" |}) (firstn n numbered_names).

(** A path that a query string carries unchanged: it has no [&] and no [#]. *)
Definition query_safe (p : string) : bool :=
  forallb_string (fun c => negb (Ascii.eqb c "&" || Ascii.eqb c "#")) p.

(** The world once a round trip has been made that left the backend alone. *)
Definition after_trip {St O : Type} (w : World St O) : World St O :=
  {| backend := backend w; pending := tl (pending w); trips := S (trips w) |}.

(** [m] makes exactly one round trip, [m] makes none. *)
Definition one_trip {St O A : Type} (m : M (World St O) A) : Prop :=
  forall w, trips (snd (m w)) = S (trips w) /\ pending (snd (m w)) = tl (pending w).

Definition no_trip {W A : Type} (m : M W A) : Prop :=
  forall w, snd (m w) = w.

(** An endpoint, the specified service behind it, and two answers a round
    trip can meet on the way, used in the examples below. *)
Definition example_endpoint : string := "https://db.example/api".

Definition example_server : Http.Request -> Backend.Store -> Http.Response * Backend.Store :=
  Backend.handle example_endpoint.

Definition server_error : Http.Response :=
  {| Http.status := 500; Http.payload := None |}.

Definition credentials_rejected : Http.Response :=
  {| Http.status := 401; Http.payload := Some (VObj [("error", VStr "unauthorized")]) |}.

(** ** The rest of the query-DSL bridge's writes *)

(** The collection [put(p, v)] leaves: the first document filed under [p] is
    replaced, or a document is added when there is none. *)
Definition stored (p v : string) (c : Fauna.Collection) : Fauna.Collection :=
  match Fauna.refs_where (fun d => String.eqb (Fauna.filename d) p) c with
  | [] => (c ++ [ {| Fauna.filename := p; Fauna.page := v |} ])%list
  | r :: _ => Fauna.replace_at r {| Fauna.filename := p; Fauna.page := v |} c
  end.

(** What the query of [get] answers for the path [q], read off the collection:
    the page of the first document filed under [q]. *)
Definition answer (q : string) (c : Fauna.Collection) : exn + value :=
  match Fauna.refs_where (fun d => String.eqb (Fauna.filename d) q) c with
  | [] => inl Fauna.NotFound
  | r :: _ =>
      match nth_error c r with
      | Some d => inr (VStr (Fauna.page d))
      | None => inl Fauna.NotFound
      end
  end.

(** [filepath.split('/').slice(0, -1).join('/')], the [path] that [put] of the
    graphql REST bridge computes. *)
Definition parent_path (filepath : string) : string :=
  String.concat "/" (removelast (Http.split "/" filepath)).

(** ** [packages/tinacms/src/tina-cms.tsx] *)

(** [new Boolean(v)] is an object, and an object is truthy whatever it wraps. *)
Inductive BooleanObject : Type :=
| new_Boolean (b : bool).

Definition truthy_object (o : BooleanObject) : bool := true.

(** [a || b] and [a && b] on objects *)
Definition or_object (a b : BooleanObject) : BooleanObject :=
  if truthy_object a then a else b.

Definition and_object (a b : BooleanObject) : BooleanObject :=
  if truthy_object a then b else a.

(** Truthiness of an optional boolean *)
Definition truthy_flag (o : option bool) : bool :=
  match o with
  | Some b => b
  | None => false
  end.

(** [a || b] on optional strings *)
Definition or_string (a b : option string) : option string :=
  if truthy a then a else b.

(** The properties of [TinaCMSProvider2] that decide the connection. *)
Module ProviderProps.

Record t (Schema : Type) : Type := {
  client_apiUrl : option string;   (* [props.client?.apiUrl] *)
  apiURL : option string;
  isLocalClient : option bool;
  branch : option string;
  clientId : option string;
  isFaunaClient : option bool;
  faunaContentUrl : option string;
  schema : option Schema
}.
Arguments client_apiUrl {Schema}.
Arguments apiURL {Schema}.
Arguments isLocalClient {Schema}.
Arguments branch {Schema}.
Arguments clientId {Schema}.
Arguments isFaunaClient {Schema}.
Arguments faunaContentUrl {Schema}.
Arguments schema {Schema}.

End ProviderProps.

(** The properties it hands to [TinaCloudProvider]. *)
Module CloudProps.

Record t (Schema : Type) : Type := {
  branch : option string;
  clientId : option string;
  isLocalClient : option bool;
  isFaunaClient : bool;
  faunaContentUrl : option string;
  schema : Schema
}.
Arguments branch {Schema}.
Arguments clientId {Schema}.
Arguments isLocalClient {Schema}.
Arguments isFaunaClient {Schema}.
Arguments faunaContentUrl {Schema}.
Arguments schema {Schema}.

End CloudProps.

Definition missing_api_url : exn :=
  Error "Error" "Must provide apiUrl or a client to the TinaWrapper component".

Definition schema_required : exn :=
  Error "Error"
    "`schema` is required to be passed as a property to `TinaProvider`.  You can learn more about this change here: https://github.com/tinacms/tinacms/pull/2823".

Section Provider.

Variable new_URL : string -> exn + URL.t.
Variable Schema : Type.

(** [TinaCMSProvider2], up to the element it returns: the checks it makes and
    the connection it passes on. *)
Definition TinaCMSProvider2 (props : ProviderProps.t Schema) : exn + CloudProps.t Schema :=
  let validOldSetup :=
    or_object (new_Boolean (truthy_flag (ProviderProps.isLocalClient props)))
      (and_object (new_Boolean (truthy (ProviderProps.clientId props)))
         (new_Boolean (truthy (ProviderProps.branch props)))) in
  let apiURL := or_string (ProviderProps.client_apiUrl props) (ProviderProps.apiURL props) in
  if negb (truthy apiURL) && negb (truthy_object validOldSetup) then inl missing_api_url
  else
    match
      (if truthy (ProviderProps.apiURL props) then
         match ProviderProps.apiURL props with
         | Some url =>
             match parseURL new_URL url with
             | inl e => inl e
             | inr c => inr (branch c, clientId c, Some (isLocalClient c),
                             isFaunaClient c, faunaContentUrl c)
             end
         | None => inr (None, None, None, false, None)
         end
       else
         inr (ProviderProps.branch props, ProviderProps.clientId props,
              ProviderProps.isLocalClient props, false, None))
    with
    | inl e => inl e
    | inr (branch_, clientId_, isLocalClient_, isFaunaClient_, faunaContentUrl_) =>
        match ProviderProps.schema props with
        | None => inl schema_required
        | Some schema_ =>
            inr {| CloudProps.branch := branch_;
                   CloudProps.clientId := clientId_;
                   CloudProps.isLocalClient := isLocalClient_;
                   CloudProps.isFaunaClient := isFaunaClient_;
                   CloudProps.faunaContentUrl := faunaContentUrl_;
                   CloudProps.schema := schema_ |}
        end
    end.

End Provider.

(** [args[i] || ''] *)
Definition or_empty (o : option string) : string :=
  match o with
  | Some a => a
  | None => ""
  end.

(** [gql(strings, ...args)]: [strings.forEach((string, i) => ...)] over the
    accumulator [str]. *)
Definition gql (strings args : list string) : string :=
  snd (fold_left
         (fun (acc : nat * string) (string_ : string) =>
            let (i, str) := acc in
            (S i, str ++ string_ ++ or_empty (nth_error args i)))
         strings (0, "")).

(** [JSON.parse(JSON.stringify(v))] of a value without cycles: a field that is
    [undefined] is dropped, an array element that is [undefined] becomes
    [null]. *)
Fixpoint JSON_clone (v : value) : value :=
  match v with
  | VArr l =>
      VArr (map (fun x => match x with
                          | VUndefined => VNull
                          | _ => JSON_clone x
                          end) l)
  | VObj fields =>
      VObj ((fix clone_fields (fs : list (string * value)) : list (string * value) :=
               match fs with
               | [] => []
               | (k, x) :: rest =>
                   match x with
                   | VUndefined => clone_fields rest
                   | _ => (k, JSON_clone x) :: clone_fields rest
                   end
               end) fields)
  | _ => v
  end.

(** No [undefined] occurs in the value: it is JSON. *)
Fixpoint serialisable (v : value) : bool :=
  match v with
  | VUndefined => false
  | VArr l => forallb serialisable l
  | VObj fields => forallb (fun kv => serialisable (snd kv)) fields
  | _ => true
  end.

Definition browser_warning : string :=
  "Whoops! Looks like you are using `staticRequest` in the browser to fetch data.

The local server is not available outside of `getStaticProps` or `getStaticPaths` functions.
This function should only be called on the server at build time.

This will work when developing locally but NOT when deployed to production.
".

Section Requests.

(** The GraphQL servers behind [LocalClient] and [FaunaClient]
    ([./internalClient], not part of the sources at hand): [request(query,
    { variables })] of either client is a round trip to a server of state
    [Remote]. *)
Variable Remote : Type.
Variable LocalClient_request : string -> value -> Remote -> (exn + value) * Remote.
Variable FaunaClient_request : string -> string -> value -> Remote -> (exn + value) * Remote.

(** Where the code runs: whether [window] and [window.document] exist, the
    lines written to the console, the server. *)
Record Runtime : Type := {
  has_window : bool;
  has_document : bool;
  console : list string;
  remote : Remote
}.

Definition is_server (w : Runtime) : bool :=
  negb (has_window w && has_document w).

(** [console.warn(text)] *)
Definition console_warn (text : string) : M Runtime unit :=
  fun w => (inr tt, {| has_window := has_window w; has_document := has_document w;
                       console := (console w ++ [text])%list; remote := remote w |}).

Definition on_remote (f : Remote -> (exn + value) * Remote) : M Runtime value :=
  fun w =>
    let (r, s) := f (remote w) in
    (r, {| has_window := has_window w; has_document := has_document w;
           console := console w; remote := s |}).

Definition warn_in_browser : M Runtime unit :=
  fun w => if negb (is_server w) then console_warn browser_warning w else (inr tt, w).

Definition faunaRequest (query : string) (variables : value) (faunaUrl : string)
  : M Runtime value :=
  warn_in_browser ;;;
  on_remote (FaunaClient_request faunaUrl query variables).

Definition staticRequest (query : string) (variables : value) : M Runtime value :=
  warn_in_browser ;;;
  on_remote (LocalClient_request query variables).

Definition getStaticPropsForTina (query : string) (variables : value) : M Runtime value :=
  try_catch
    (data <- staticRequest query variables ;;
     ret (JSON_clone (VObj [("data", data); ("query", VStr query);
                            ("variables", variables)])))
    (fun e =>
       ret (JSON_clone (VObj [("data", VObj []); ("query", VStr query);
                              ("variables", variables)]))).

End Requests.

Arguments has_window {Remote}.
Arguments has_document {Remote}.
Arguments console {Remote}.
Arguments remote {Remote}.

(** [ErrorBoundary]: its state, the updates React applies to it, and what
    [render] shows. *)
Module ErrorBoundary.

Record State : Type := {
  hasError : option bool;
  message : string;
  pageRefresh : bool
}.

(** [constructor(props)] *)
Definition constructor (props_hasError : option bool) : State :=
  {| hasError := props_hasError; message := ""; pageRefresh := false |}.

(** [getDerivedStateFromError(error)], merged into the state *)
Definition getDerivedStateFromError (error_message : string) (st : State) : State :=
  {| hasError := Some true; message := error_message; pageRefresh := pageRefresh st |}.

(** The [onClick] of the Refresh button: [setState({ pageRefresh: true })];
    it also starts the timer whose callback is [timeout]. *)
Definition clickRefresh (st : State) : State :=
  {| hasError := hasError st; message := message st; pageRefresh := true |}.

(** [setState({ hasError: false, pageRefresh: false })] *)
Definition timeout (st : State) : State :=
  {| hasError := Some false; message := message st; pageRefresh := false |}.

Inductive view : Type :=
| ErrorScreen (message : string) (offersDefaultBranch : bool)
| TryingAgain
| Children.

(** [render()]; [branchData] is [localStorage.getItem('tinacms-current-branch')]. *)
Definition render (branchData : option string) (st : State) : view :=
  let hasBranchData :=
    match branchData with
    | Some data => Nat.ltb 0 (String.length data)
    | None => false
    end in
  if truthy_flag (hasError st) && negb (pageRefresh st) then
    ErrorScreen (message st) hasBranchData
  else if pageRefresh st then TryingAgain
  else Children.

Inductive event : Type :=
| Caught (error_message : string)
| ClickRefresh
| Timeout.

Definition step (st : State) (e : event) : State :=
  match e with
  | Caught m => getDerivedStateFromError m st
  | ClickRefresh => clickRefresh st
  | Timeout => timeout st
  end.

End ErrorBoundary.

(** ** The media manager ([MediaPicker]) *)
Module MediaPicker.

(** [MediaListOffset] is a string or a number. *)
Inductive MediaListOffset : Type :=
| OffsetNumber (n : nat)
| OffsetString (s : string).

Definition truthy_offset (o : option MediaListOffset) : bool :=
  match o with
  | None => false
  | Some (OffsetNumber 0) => false
  | Some (OffsetString "") => false
  | Some _ => true
  end.

(** [offsetHistory[offsetHistory.length - 1]] *)
Definition offset (offsetHistory : list MediaListOffset) : option MediaListOffset :=
  match offsetHistory with
  | [] => None
  | _ => nth_error offsetHistory (length offsetHistory - 1)
  end.

Definition resetOffset : list MediaListOffset := [].

(** [navigateNext], given [list.nextOffset]: the history it sets. *)
Definition navigateNext (nextOffset : option MediaListOffset)
  (offsetHistory : list MediaListOffset) : list MediaListOffset :=
  if negb (truthy_offset nextOffset) then offsetHistory
  else
    match nextOffset with
    | Some o => (offsetHistory ++ [o])%list
    | None => offsetHistory
    end.

(** [navigatePrev]: [offsetHistory.slice(0, offsetHistory.length - 1)] *)
Definition navigatePrev (offsetHistory : list MediaListOffset) : list MediaListOffset :=
  firstn (length offsetHistory - 1) offsetHistory.

Definition hasPrev (offsetHistory : list MediaListOffset) : bool :=
  Nat.ltb 0 (length offsetHistory).

Definition hasNext (nextOffset : option MediaListOffset) : bool :=
  truthy_offset nextOffset.

(** The directory the picker opens: [directoryWithPath]. *)
Definition directoryWithPath (mediabasepath directory : option string) : option string :=
  let d0 : option string := None in
  let d1 := if truthy mediabasepath then mediabasepath else d0 in
  if truthy d1 && truthy directory then
    match d1, directory with
    | Some a, Some b => Some (a ++ b)
    | _, _ => directory
    end
  else directory.

Inductive MediaListState : Type :=
| loading
| loaded
| error
| not_configured.

(** What a rejected [cms.media.list] carries, as far as the picker looks. *)
Record ListFailure : Type := {
  ERR_TYPE : option string;
  title : string;
  failure_message : string;
  docsLink : string
}.

(** [defaultListError] *)
Definition defaultListError : ListFailure :=
  {| ERR_TYPE := Some "MediaListError";
     title := "Error fetching media";
     failure_message := "Something went wrong while requesting the resource.";
     docsLink := "https://tina.io/docs/media/#media-store" |}.

Record State (Item : Type) : Type := {
  listState : MediaListState;
  listError : ListFailure;
  items : list Item;
  nextOffset : option MediaListOffset;
  uploading : bool
}.
Arguments listState {Item}.
Arguments listError {Item}.
Arguments items {Item}.
Arguments nextOffset {Item}.
Arguments uploading {Item}.

Section Picker.

Variable Item : Type.

(** The initial state, from [cms.media.isConfigured]. *)
Definition initial (isConfigured : bool) : State Item :=
  {| listState := if isConfigured then loading else not_configured;
     listError := defaultListError;
     items := [];
     nextOffset := None;
     uploading := false |}.

(** [loadMedia()], with the outcome of [cms.media.list(...)]: the list, or
    what the promise rejected with. *)
Definition loadMedia (outcome : ListFailure + list Item * option MediaListOffset)
  (st : State Item) : State Item :=
  match outcome with
  | inr (items_, next) =>
      {| listState := loaded; listError := listError st; items := items_;
         nextOffset := next; uploading := uploading st |}
  | inl e =>
      {| listState := error;
         listError := match ERR_TYPE e with
                      | Some t => if String.eqb t "MediaListError" then e else defaultListError
                      | None => defaultListError
                      end;
         items := items st; nextOffset := nextOffset st; uploading := uploading st |}
  end.

(** The effect that loads the list runs [loadMedia] only when a media store
    is configured. *)
Definition effect (isConfigured : bool)
  (outcome : ListFailure + list Item * option MediaListOffset) (st : State Item)
  : State Item :=
  if negb isConfigured then st else loadMedia outcome st.

Inductive view : Type :=
| LoadingMediaList
| NoMediaStoreConfigured
| ListError (title message docsLink : string)
| Picker (empty : bool) (shown : list Item).

(** What the component returns. *)
Definition render (st : State Item) : view :=
  match listState st with
  | loading => LoadingMediaList
  | _ =>
      if uploading st then LoadingMediaList
      else
        match listState st with
        | not_configured => NoMediaStoreConfigured
        | error =>
            ListError (title (listError st)) (failure_message (listError st))
              (docsLink (listError st))
        | _ =>
            Picker (match listState st, items st with
                    | loaded, [] => true
                    | _, _ => false
                    end)
              (items st)
        end
  end.

End Picker.

End MediaPicker.

(* ===================================================================== *)
(** * Part II: properties                                                 *)
(* ===================================================================== *)

(** ** Strings *)

Lemma prefix_append (p s : string) : String.prefix p (p ++ s) = true.
Proof.
  induction p as [|c p IH]; simpl.
  - destruct s; reflexivity.
  - destruct (ascii_dec c c) as [_|n]; [exact IH | now elim n].
Qed.

Lemma prefix_split (p s : string) :
  String.prefix p s = true -> exists post, s = p ++ post.
Proof.
  revert s. induction p as [|c p IH]; intros s H.
  - exists s. reflexivity.
  - destruct s as [|d s]; simpl in H; [discriminate|].
    destruct (ascii_dec c d) as [->|]; [|discriminate].
    destruct (IH s H) as [post ->]. exists post. reflexivity.
Qed.

Lemma includes_prefix (s t : string) : String.prefix t s = true -> includes s t = true.
Proof. intros H. destruct s; unfold includes; fold includes; rewrite H; reflexivity. Qed.

Lemma includes_append (pre t post : string) : includes (pre ++ t ++ post) t = true.
Proof.
  induction pre as [|c pre IH]; simpl.
  - apply includes_prefix, prefix_append.
  - rewrite IH. apply orb_true_r.
Qed.

(** [includes] is containment of a substring. *)
Lemma includes_iff (s t : string) :
  includes s t = true <-> exists pre post, s = pre ++ t ++ post.
Proof.
  split.
  - induction s as [|c s IH]; simpl; intros H.
    + rewrite orb_false_r in H. destruct t; [|discriminate H].
      exists "", "". reflexivity.
    + apply orb_true_iff in H. destruct H as [H|H].
      * destruct (prefix_split t (String c s) H) as [post E]. exists "", post. exact E.
      * destruct (IH H) as (pre & post & ->). exists (String c pre), post. reflexivity.
  - intros (pre & post & ->). apply includes_append.
Qed.

(** ** The connection resolver *)

Lemma parseURL_localhost (new_URL : string -> exn + URL.t) (url : string) :
  includes url "localhost" = true -> parseURL new_URL url = inr local_connection.
Proof. intros H. unfold parseURL. rewrite H. reflexivity. Qed.

Lemma parseURL_other_host (new_URL : string -> exn + URL.t) (url : string) (params : URL.t) :
  includes url "localhost" = false ->
  new_URL url = inr params ->
  String.eqb (URL.host params) TINA_HOST = false ->
  parseURL new_URL url = inr (fauna_connection url).
Proof.
  intros Hl Hp Hh. unfold parseURL. rewrite Hl, Hp.
  change (UrlPattern.new _ _) with
    (@inr exn UrlPattern.t
       [UrlPattern.Static "/content/"; UrlPattern.Named "clientId";
        UrlPattern.Static "/github/"; UrlPattern.Wildcard]).
  cbv beta iota. rewrite Hh. reflexivity.
Qed.

(** Claim C1.  [parseURL] resolves the four documented shapes of a connection
    string.  Every input that contains [localhost] gives the local variant,
    without branch or client id, as does [http://localhost:1234/graphql];
    [https://content.tinajs.io/content/abc123/github/main] gives client id
    [abc123] and branch [main], neither local nor Fauna; any other URL, one
    whose host is not the hosted service's, such as
    [https://my-fauna-domain.example/api], gives the Fauna variant with the
    input kept verbatim as [faunaContentUrl]; and
    [https://content.tinajs.io/content//github/], which lacks the client id,
    fails with the format error. *)
Theorem C1_parseURL_documented_shapes :
  (forall (new_URL : string -> exn + URL.t) (url : string),
      includes url "localhost" = true ->
      parseURL new_URL url = inr local_connection) /\
  parseURL URL.parse "http://localhost:1234/graphql"
    = inr {| branch := None; isLocalClient := true; clientId := None;
             isFaunaClient := false; faunaContentUrl := None |} /\
  parseURL URL.parse "https://content.tinajs.io/content/abc123/github/main"
    = inr {| branch := Some "main"; isLocalClient := false; clientId := Some "abc123";
             isFaunaClient := false; faunaContentUrl := None |} /\
  (forall (new_URL : string -> exn + URL.t) (url : string) (params : URL.t),
      includes url "localhost" = false ->
      new_URL url = inr params ->
      String.eqb (URL.host params) TINA_HOST = false ->
      parseURL new_URL url
        = inr {| branch := None; isLocalClient := false; clientId := None;
                 isFaunaClient := true; faunaContentUrl := Some url |}) /\
  parseURL URL.parse "https://my-fauna-domain.example/api"
    = inr {| branch := None; isLocalClient := false; clientId := None;
             isFaunaClient := true;
             faunaContentUrl := Some "https://my-fauna-domain.example/api" |} /\
  parseURL URL.parse "https://content.tinajs.io/content//github/"
    = inl (Error "Error"
        "Invalid URL format provided. Expected: https://content.tinajs.io/content/<ClientID>/github/<Branch> but but received https://content.tinajs.io/content//github/").
Proof.
  split; [exact parseURL_localhost|].
  split; [reflexivity|].
  split; [reflexivity|].
  split; [exact parseURL_other_host|].
  split; reflexivity.
Qed.

(** The two general cases of C1 at a host that merely contains [localhost] and
    at a URL of another host that has the hosted path shape. *)
Lemma C1_parseURL_documented_shapes_witness :
  parseURL URL.parse "http://notlocalhost.example.com/graphql" = inr local_connection /\
  parseURL URL.parse "https://db.example.org:8443/content/abc123/github/main"
    = inr (fauna_connection "https://db.example.org:8443/content/abc123/github/main").
Proof.
  split.
  - apply (proj1 C1_parseURL_documented_shapes). reflexivity.
  - apply (proj1 (proj2 (proj2 (proj2 C1_parseURL_documented_shapes)))
             URL.parse _
             {| URL.protocol := "https:"; URL.host := "db.example.org:8443";
                URL.pathname := "/content/abc123/github/main" |});
      reflexivity.
Defined.

(** Claim C10.  [parseURL] classifies by substring, not by host: whatever
    surrounds it, an input in which [localhost] occurs gives the local variant
    at once, whatever the platform's URL parser would make of the input (a
    host such as [notlocalhost.example.com], a text that is no URL); hence
    [parseURL] throws, from the URL parser or from the format check, only on
    inputs that do not contain [localhost]. *)
Theorem C10_localhost_is_matched_as_substring :
  (forall (new_URL : string -> exn + URL.t) (pre post : string),
      parseURL new_URL (pre ++ "localhost" ++ post) = inr local_connection) /\
  (forall (new_URL : string -> exn + URL.t) (url : string) (e : exn),
      parseURL new_URL url = inl e -> includes url "localhost" = false) /\
  parseURL URL.parse "https://notlocalhost.example.com/api" = inr local_connection /\
  parseURL URL.parse "https://content.tinajs.io/content/abc123/github/localhost-fix"
    = inr local_connection /\
  parseURL (fun _ => inl URL.invalid) "no URL at all, but it mentions localhost"
    = inr local_connection.
Proof.
  split.
  { intros new_URL pre post. apply parseURL_localhost, includes_append. }
  split.
  { intros new_URL url e H.
    destruct (includes url "localhost") eqn:E; [|reflexivity].
    rewrite (parseURL_localhost new_URL url E) in H. discriminate H. }
  repeat split; reflexivity.
Qed.

(** [parseURL] throws on a text without scheme: it does not contain [localhost]. *)
Lemma C10_localhost_is_matched_as_substring_witness :
  includes "content.tinajs.io/content/abc123/github/main" "localhost" = false.
Proof.
  apply (proj1 (proj2 C10_localhost_is_matched_as_substring)
           URL.parse "content.tinajs.io/content/abc123/github/main" URL.invalid).
  reflexivity.
Defined.

(** ** The store *)

(** Claim C9.  [supportsIndexing()] is [false] in both revisions of
    [FaunaStore]; [supportsSeeding()] is [true] in the first revision and
    [false] in the second; and either flag is the same for all instances of a
    revision, whatever the state of the underlying store. *)
Theorem C9_store_capability_flags :
  forall LevelStore : Type,
    (forall (r : revision) (s : FaunaStore LevelStore r), supportsIndexing s = false) /\
    (forall s : FaunaStore LevelStore FirstRevision, supportsSeeding s = true) /\
    (forall s : FaunaStore LevelStore SecondRevision, supportsSeeding s = false) /\
    (forall (r : revision) (s s' : FaunaStore LevelStore r),
        supportsSeeding s = supportsSeeding s' /\
        supportsIndexing s = supportsIndexing s').
Proof.
  intros LevelStore. repeat split; try reflexivity.
  intros r s. destruct r; reflexivity.
Qed.

(** ** Round trips *)

Lemma no_trip_ret {W A : Type} (a : A) : no_trip (@ret W A a).
Proof. intros w. reflexivity. Qed.

Lemma no_trip_throw {W A : Type} (e : exn) : no_trip (@throw W A e).
Proof. intros w. reflexivity. Qed.

Lemma no_trip_lift {W A : Type} (r : exn + A) : no_trip (@lift W A r).
Proof. intros w. reflexivity. Qed.

Lemma no_trip_json {W : Type} (r : Http.Response) : no_trip (@Http.json W r).
Proof. intros w. unfold Http.json. destruct (Http.payload r); reflexivity. Qed.

Lemma no_trip_if {W A : Type} (b : bool) (m1 m2 : M W A) :
  no_trip m1 -> no_trip m2 -> no_trip (if b then m1 else m2).
Proof. destruct b; auto. Qed.

Lemma no_trip_bind {W A B : Type} (m : M W A) (k : A -> M W B) :
  no_trip m -> (forall a, no_trip (k a)) -> no_trip (bind m k).
Proof.
  intros Hm Hk w. unfold bind. specialize (Hm w).
  destruct (m w) as [[e|a] w']; simpl in *; subst; [reflexivity | apply Hk].
Qed.

Lemma one_trip_bind {St O A B : Type} (m : M (World St O) A) (k : A -> M (World St O) B) :
  one_trip m -> (forall a, no_trip (k a)) -> one_trip (bind m k).
Proof.
  intros Hm Hk w. unfold bind. specialize (Hm w).
  destruct (m w) as [[e|a] w']; simpl in *; [exact Hm|].
  rewrite (Hk a w'). exact Hm.
Qed.

Lemma one_trip_try_catch {St O A : Type} (m : M (World St O) A) (h : exn -> M (World St O) A) :
  one_trip m -> (forall e, no_trip (h e)) -> one_trip (try_catch m h).
Proof.
  intros Hm Hh w. unfold try_catch. specialize (Hm w).
  destruct (m w) as [[e|a] w']; simpl in *; [|exact Hm].
  rewrite (Hh e w'). exact Hm.
Qed.

Lemma one_trip_query {A : Type} (expr : Fauna.Query A) : one_trip (Fauna.query expr).
Proof.
  intros w. unfold Fauna.query, next_trip. simpl.
  destruct (hd_error (pending w)) as [[|e]|]; simpl;
    try (destruct (expr (backend w)) as [[e'|a] c']; simpl); auto.
Qed.

Lemma one_trip_fetch {Store : Type} (server : Http.Request -> Store -> Http.Response * Store)
  (req : Http.Request) : one_trip (Http.fetch server req).
Proof.
  intros w. unfold Http.fetch, next_trip. simpl.
  destruct (hd_error (pending w)) as [[|e|r]|]; simpl;
    try (destruct (server req (backend w)) as [r' s']; simpl); auto.
Qed.

Create HintDb trips.
#[export] Hint Resolve no_trip_ret no_trip_throw no_trip_lift no_trip_json no_trip_if
  no_trip_bind one_trip_bind one_trip_try_catch one_trip_query one_trip_fetch : trips.

Ltac count_trips :=
  repeat first
    [ apply one_trip_bind; [ | intro ]
    | apply one_trip_try_catch; [ | intro ]
    | apply no_trip_bind; [ | intro ]
    | apply no_trip_if
    | match goal with
      | |- one_trip (match ?x with _ => _ end) => destruct x
      | |- no_trip (match ?x with _ => _ end) => destruct x
      end
    | solve [auto with trips] ].

Lemma query_dsl_one_trip (p v : string) :
  Forall one_trip (operations query_dsl_bridge p v).
Proof.
  unfold operations; simpl.
  repeat constructor;
    unfold QueryDSL.glob, QueryDSL.readDir, QueryDSL.get, QueryDSL.putConfig, QueryDSL.put;
    count_trips.
Qed.

Lemma rest_graphql_one_trip {Store : Type}
  (server : Http.Request -> Store -> Http.Response * Store) (domain p v : string) :
  Forall one_trip (operations (rest_graphql_bridge server domain) p v).
Proof.
  unfold operations; simpl.
  repeat constructor;
    unfold RestGraphql.glob, RestGraphql.readDir, RestGraphql.get, RestGraphql.putConfig,
      RestGraphql.put, RestGraphql.delete;
    count_trips.
Qed.

Lemma rest_datalayer_one_trip {Store : Type}
  (server : Http.Request -> Store -> Http.Response * Store) (domain p v : string) :
  Forall one_trip (operations (rest_datalayer_bridge server domain) p v).
Proof.
  unfold operations; simpl.
  repeat constructor;
    unfold RestDatalayer.glob, RestDatalayer.readDir, RestDatalayer.get,
      RestDatalayer.putConfig, RestDatalayer.put, RestDatalayer.delete;
    count_trips.
Qed.

(** ** Failures of the round trip *)

(** Claim C4, as stated, fails: in the datalayer bridge a round trip answered
    by HTTP 500 makes [glob] return the empty list, although a matching path
    is stored; and [get] returns the empty string. *)
Lemma C4_http_failure_becomes_empty_result :
  RestDatalayer.glob Backend.Store example_server example_endpoint "posts/"
    (mkWorld [("posts/a.md", "A")] [Http.Answer server_error] 0)
    = (inr (VArr []), mkWorld [("posts/a.md", "A")] [] 1) /\
  RestDatalayer.get Backend.Store example_server example_endpoint "posts/a.md"
    (mkWorld [("posts/a.md", "A")] [Http.Answer server_error] 0)
    = (inr (VStr ""), mkWorld [("posts/a.md", "A")] [] 1).
Proof. split; reflexivity. Qed.

(** Claim C4, amended.  Every operation of every bridge variant makes exactly
    one round trip, so nothing is retried; when that round trip is rejected
    (the promise of [fetch], or of the driver's [query], rejects with [e]) the
    operation fails with [e], which [get] of the query-DSL variant wraps in a
    [GraphQLError].  A response that is not [ok] is no failure for the
    datalayer bridge: [glob] returns [[]], [get] and [put] return [''],
    [putConfig] and [delete] return normally; and [delete] of the graphql
    REST bridge returns normally whatever the response. *)
Theorem C4_rejections_propagate_without_retry :
  (forall p v : string, Forall one_trip (operations query_dsl_bridge p v)) /\
  (forall (Store : Type) (server : Http.Request -> Store -> Http.Response * Store)
          (domain p v : string),
      Forall one_trip (operations (rest_graphql_bridge server domain) p v) /\
      Forall one_trip (operations (rest_datalayer_bridge server domain) p v)) /\
  (forall (Store : Type) (server : Http.Request -> Store -> Http.Response * Store)
          (domain p v : string) (st : Store) (e : exn) (rest : list Http.fate) (n : nat),
      Forall (fun op => op (mkWorld st (Http.Reject e :: rest) n)
                        = (inl e, mkWorld st rest (S n)))
        (operations (rest_graphql_bridge server domain) p v) /\
      Forall (fun op => op (mkWorld st (Http.Reject e :: rest) n)
                        = (inl e, mkWorld st rest (S n)))
        (operations (rest_datalayer_bridge server domain) p v)) /\
  (forall (p v : string) (c : Fauna.Collection) (e : exn) (rest : list Fauna.fate) (n : nat),
      QueryDSL.glob p (mkWorld c (Fauna.Failed e :: rest) n)
        = (inl e, mkWorld c rest (S n)) /\
      QueryDSL.put p v (mkWorld c (Fauna.Failed e :: rest) n)
        = (inl e, mkWorld c rest (S n)) /\
      QueryDSL.putConfig p v (mkWorld c (Fauna.Failed e :: rest) n)
        = (inl e, mkWorld c rest (S n)) /\
      QueryDSL.get p (mkWorld c (Fauna.Failed e :: rest) n)
        = (inl (if instanceof_Error e
                then GraphQLError QueryDSL.unauthorized_message (Some e) (message_of e)
                else GraphQLError QueryDSL.unknown_message None ""),
           mkWorld c rest (S n))) /\
  (forall (Store : Type) (server : Http.Request -> Store -> Http.Response * Store)
          (domain p v : string) (st : Store) (r : Http.Response) (rest : list Http.fate)
          (n : nat),
      Http.ok r = false ->
      RestDatalayer.glob Store server domain p (mkWorld st (Http.Answer r :: rest) n)
        = (inr (VArr []), mkWorld st rest (S n)) /\
      RestDatalayer.get Store server domain p (mkWorld st (Http.Answer r :: rest) n)
        = (inr (VStr ""), mkWorld st rest (S n)) /\
      RestDatalayer.put Store server domain p v (mkWorld st (Http.Answer r :: rest) n)
        = (inr (VStr ""), mkWorld st rest (S n)) /\
      RestDatalayer.putConfig Store server domain p v (mkWorld st (Http.Answer r :: rest) n)
        = (inr VUndefined, mkWorld st rest (S n))) /\
  (forall (Store : Type) (server : Http.Request -> Store -> Http.Response * Store)
          (domain p : string) (st : Store) (r : Http.Response) (rest : list Http.fate)
          (n : nat),
      RestDatalayer.delete Store server domain p (mkWorld st (Http.Answer r :: rest) n)
        = (inr VUndefined, mkWorld st rest (S n)) /\
      RestGraphql.delete Store server domain p (mkWorld st (Http.Answer r :: rest) n)
        = (inr VUndefined, mkWorld st rest (S n))).
Proof.
  split; [exact query_dsl_one_trip|].
  split; [intros; split; [apply rest_graphql_one_trip | apply rest_datalayer_one_trip]|].
  split; [intros; split; unfold operations; simpl; repeat constructor|].
  split.
  { intros p v c e rest n. repeat split; try reflexivity.
    unfold QueryDSL.get, try_catch, bind, Fauna.query, next_trip; simpl.
    destruct (instanceof_Error e); reflexivity. }
  split.
  { intros Store server domain p v st r rest n Hr.
    unfold RestDatalayer.glob, RestDatalayer.readDir, RestDatalayer.get,
      RestDatalayer.putConfig, RestDatalayer.put, bind, Http.fetch, next_trip; simpl.
    rewrite Hr. repeat split; reflexivity. }
  intros. split; reflexivity.
Qed.

(** [put] of the datalayer bridge, answered by HTTP 500. *)
Lemma C4_rejections_propagate_without_retry_witness :
  RestDatalayer.put Backend.Store example_server example_endpoint "posts/a.md" "A"
    (mkWorld [] [Http.Answer server_error] 0)
    = (inr (VStr ""), mkWorld [] [] 1).
Proof.
  apply (proj1 (proj2 (proj2 (proj2 (proj2 C4_rejections_propagate_without_retry))))
           Backend.Store example_server example_endpoint "posts/a.md" "A" []
           server_error [] 0).
  reflexivity.
Defined.

(** ** [putConfig] *)

(** Claim C7, as stated, fails: against the specified service the datalayer
    bridge's [put] returns the parsed acknowledgement, and [''] when the
    response is not [ok], whereas [putConfig] returns [undefined]. *)
Lemma C7_putConfig_result_differs :
  fst (RestDatalayer.put Backend.Store example_server example_endpoint "tina/config.json" "{}"
         (mkWorld [] [] 0)) = inr (VObj []) /\
  fst (RestDatalayer.putConfig Backend.Store example_server example_endpoint
         "tina/config.json" "{}" (mkWorld [] [] 0)) = inr VUndefined /\
  fst (RestDatalayer.put Backend.Store example_server example_endpoint "tina/config.json" "{}"
         (mkWorld [] [Http.Answer server_error] 0)) = inr (VStr "") /\
  fst (RestDatalayer.putConfig Backend.Store example_server example_endpoint
         "tina/config.json" "{}" (mkWorld [] [Http.Answer server_error] 0)) = inr VUndefined.
Proof. repeat split; reflexivity. Qed.

(** Claim C7, amended.  In every variant, for every path and payload,
    [putConfig] leaves the world [put] leaves (same request, same backend
    state) and fails exactly when [put] fails, with the same error; its result
    is [undefined].  That is also the result of [put] in the query-DSL and
    graphql REST variants, where the two coincide; [put] of the datalayer
    variant returns the parsed response, or [''] when it is not [ok].
    The first three parts relate [putConfig] to [put]; the next two say that
    what [put] and [putConfig] of the query-DSL and graphql REST variants
    return is [undefined]; the last says what [put] of the datalayer variant
    returns, from the response to its one request. *)
Theorem C7_putConfig_follows_put :
  (forall (w : Fauna.Client) (p v : string),
      QueryDSL.putConfig p v w = QueryDSL.put p v w) /\
  (forall (Store : Type) (server : Http.Request -> Store -> Http.Response * Store)
          (domain : string) (w : Http.Net Store) (p v : string),
      RestGraphql.putConfig Store server domain p v w
        = RestGraphql.put Store server domain p v w) /\
  (forall (Store : Type) (server : Http.Request -> Store -> Http.Response * Store)
          (domain : string) (w : Http.Net Store) (p v : string),
      snd (RestDatalayer.putConfig Store server domain p v w)
        = snd (RestDatalayer.put Store server domain p v w) /\
      fst (RestDatalayer.putConfig Store server domain p v w)
        = match fst (RestDatalayer.put Store server domain p v w) with
          | inl e => inl e
          | inr _ => inr VUndefined
          end) /\
  (forall (w : Fauna.Client) (p v : string),
      fst (QueryDSL.put p v w)
        = match fst (QueryDSL.put p v w) with
          | inl e => inl e
          | inr _ => inr VUndefined
          end /\
      fst (QueryDSL.putConfig p v w)
        = match fst (QueryDSL.put p v w) with
          | inl e => inl e
          | inr _ => inr VUndefined
          end) /\
  (forall (Store : Type) (server : Http.Request -> Store -> Http.Response * Store)
          (domain : string) (w : Http.Net Store) (p v : string),
      fst (RestGraphql.put Store server domain p v w)
        = match fst (RestGraphql.put Store server domain p v w) with
          | inl e => inl e
          | inr _ => inr VUndefined
          end /\
      fst (RestGraphql.putConfig Store server domain p v w)
        = match fst (RestGraphql.put Store server domain p v w) with
          | inl e => inl e
          | inr _ => inr VUndefined
          end) /\
  (forall (Store : Type) (server : Http.Request -> Store -> Http.Response * Store)
          (domain : string) (w : Http.Net Store) (p v : string),
      RestDatalayer.put Store server domain p v w
      = match Http.fetch server
                {| Http.method := "POST";
                   Http.url := domain ++ "/page";
                   Http.body := Some (Http.Json
                                  (VObj [("filepath", VStr p); ("data", VStr v)])) |} w
        with
        | (inl e, w') => (inl e, w')
        | (inr response, w') =>
            (if Http.ok response then
               match Http.payload response with
               | Some parsed => inr parsed
               | None => inl (Error "SyntaxError" "Unexpected end of JSON input")
               end
             else inr (VStr ""),
             w')
        end).
Proof.
  split.
  { intros w p v. unfold QueryDSL.putConfig, QueryDSL.put, bind.
    destruct (Fauna.query _ w) as [[e|a] w']; reflexivity. }
  split.
  { intros Store server domain w p v.
    unfold RestGraphql.putConfig, RestGraphql.put, bind.
    destruct (Http.fetch _ _ w) as [[e|r] w']; [reflexivity|].
    destruct (Http.json r w') as [[e|a] w'']; reflexivity. }
  split.
  { intros Store server domain w p v. unfold RestDatalayer.putConfig, bind.
    destruct (RestDatalayer.put Store server domain p v w) as [[e|a] w']; split;
      reflexivity. }
  split.
  { intros w p v. unfold QueryDSL.putConfig, QueryDSL.put, bind.
    destruct (Fauna.query _ w) as [[e|a] w']; split; reflexivity. }
  split.
  { intros Store server domain w p v.
    unfold RestGraphql.putConfig, RestGraphql.put, bind.
    destruct (Http.fetch _ _ w) as [[e|r] w']; [split; reflexivity|].
    destruct (Http.json r w') as [[e|a] w'']; split; reflexivity. }
  intros Store server domain w p v. unfold RestDatalayer.put, bind.
  destruct (Http.fetch _ _ w) as [[e|r] w']; [reflexivity|].
  destruct (Http.ok r); [|reflexivity].
  unfold Http.json. destruct (Http.payload r); reflexivity.
Qed.

(** ** The specified service *)

Lemma append_assoc (a b c : string) : (a ++ b) ++ c = a ++ b ++ c.
Proof. induction a as [|x a IH]; simpl; [reflexivity | now rewrite IH]. Qed.

Lemma eqb_append (a b c : string) : String.eqb (a ++ b) (a ++ c) = String.eqb b c.
Proof.
  induction a as [|x a IH]; simpl; [reflexivity|].
  rewrite Ascii.eqb_refl. exact IH.
Qed.

Lemma strip_prefix_append (a b : string) : strip_prefix a (a ++ b) = Some b.
Proof.
  induction a as [|x a IH]; simpl; [reflexivity|].
  rewrite Ascii.eqb_refl. exact IH.
Qed.

Lemma break_none (stop : ascii -> bool) (s : string) :
  forallb_string (fun c => negb (stop c)) s = true -> break stop s = (s, "").
Proof.
  induction s as [|c s IH]; simpl; intros H; [reflexivity|].
  apply andb_true_iff in H. destruct H as [Hc Hs].
  apply negb_true_iff in Hc. rewrite Hc, (IH Hs). reflexivity.
Qed.

Lemma lookup_remove (p : string) (st : Backend.Store) :
  Backend.lookup p (Backend.remove p st) = None.
Proof.
  induction st as [|[k v] st IH]; simpl; [reflexivity|].
  destruct (String.eqb k p) eqn:E; simpl; [exact IH|].
  rewrite E. exact IH.
Qed.

Lemma remove_absent (p : string) (st : Backend.Store) :
  Backend.lookup p st = None -> Backend.remove p st = st.
Proof.
  induction st as [|[k v] st IH]; simpl; intros H; [reflexivity|].
  destruct (String.eqb k p) eqn:E; [discriminate H|].
  simpl. now rewrite (IH H).
Qed.

Lemma remove_remove (p : string) (st : Backend.Store) :
  Backend.remove p (Backend.remove p st) = Backend.remove p st.
Proof. apply remove_absent, lookup_remove. Qed.

Lemma lookup_upsert (p v : string) (st : Backend.Store) :
  Backend.lookup p (Backend.upsert p v st) = Some v.
Proof. unfold Backend.upsert. simpl. now rewrite String.eqb_refl. Qed.

Lemma lookup_upsert_other (p q v : string) (st : Backend.Store) :
  String.eqb p q = false ->
  Backend.lookup q (Backend.upsert p v st) = Backend.lookup q st.
Proof.
  intros H. unfold Backend.upsert. simpl. rewrite H.
  induction st as [|[k x] st IH]; simpl; [reflexivity|].
  destruct (String.eqb k p) eqn:E; simpl.
  - apply String.eqb_eq in E. subst k. now rewrite H.
  - destruct (String.eqb k q); [reflexivity | exact IH].
Qed.

Section Service.

Variable endpoint : string.

Lemma handle_list (q : string) (st : Backend.Store) :
  Backend.handle endpoint
    {| Http.method := "POST"; Http.url := endpoint ++ "/page-dir";
       Http.body := Some (Http.Json (VObj [("filepath", VStr q)])) |} st
  = (Backend.respond
       (VObj [("data", VArr (map VStr (filter (fun p => startsWith p q) (Backend.paths st))))]),
     st).
Proof. unfold Backend.handle. simpl. now rewrite String.eqb_refl. Qed.

Lemma handle_write (p v : string) (st : Backend.Store) :
  Backend.handle endpoint
    {| Http.method := "POST"; Http.url := endpoint ++ "/page";
       Http.body := Some (Http.Json (VObj [("filepath", VStr p); ("data", VStr v)])) |} st
  = (Backend.respond (VObj []), Backend.upsert p v st).
Proof.
  unfold Backend.handle. simpl.
  now rewrite eqb_append, String.eqb_refl.
Qed.

Lemma handle_delete (p : string) (st : Backend.Store) :
  Backend.handle endpoint
    {| Http.method := "DELETE"; Http.url := endpoint ++ "/page";
       Http.body := Some (Http.Json (VObj [("filepath", VStr p)])) |} st
  = (Backend.respond (VObj []), Backend.remove p st).
Proof. unfold Backend.handle. simpl. now rewrite String.eqb_refl. Qed.

Lemma handle_read (p : string) (st : Backend.Store) :
  Backend.handle endpoint
    {| Http.method := "GET"; Http.url := endpoint ++ "/page?filepath=" ++ p;
       Http.body := None |} st
  = (Backend.respond
       (VStr (match Backend.lookup (Backend.query_value p) st with
              | Some v => v
              | None => ""
              end)),
     st).
Proof.
  unfold Backend.handle. cbn [Http.method Http.url Http.body].
  rewrite <- (append_assoc endpoint "/page?filepath=" p), strip_prefix_append.
  reflexivity.
Qed.

(** A request whose body is plain text is refused and changes nothing. *)
Lemma handle_text (m u t : string) (st : Backend.Store) :
  String.eqb m "GET" = false ->
  Backend.handle endpoint
    {| Http.method := m; Http.url := u; Http.body := Some (Http.Text t) |} st
  = (if (String.eqb m "POST" && (String.eqb u (endpoint ++ "/page-dir")
                                 || String.eqb u (endpoint ++ "/page")))
        || (String.eqb m "DELETE" && String.eqb u (endpoint ++ "/page"))
     then Backend.bad_request else Backend.no_route, st).
Proof.
  intros Hm. unfold Backend.handle. simpl. rewrite Hm.
  destruct (String.eqb m "POST"), (String.eqb m "DELETE"),
    (String.eqb u (endpoint ++ "/page-dir")), (String.eqb u (endpoint ++ "/page"));
    reflexivity.
Qed.

End Service.

(** ** [delete] *)

Section Delete.

Context {Store : Type} (server : Http.Request -> Store -> Http.Response * Store).

Lemma fetch_connected (req : Http.Request) (w : Http.Net Store) :
  connected 1 w = true -> exists r, fst (Http.fetch server req w) = inr r.
Proof.
  unfold connected, Http.fetch, next_trip. destruct w as [st [|[|e|r] rest] n]; simpl.
  - intros _. destruct (server req st) as [r s']. now exists r.
  - intros _. destruct (server req st) as [r s']. now exists r.
  - discriminate.
  - intros _. now exists r.
Qed.

Lemma connected_next (w w' : Http.Net Store) :
  connected 2 w = true -> pending w' = tl (pending w) ->
  connected 1 w = true /\ connected 1 w' = true.
Proof.
  unfold connected. intros H E. rewrite E.
  destruct (pending w) as [|f1 [|f2 rest]]; simpl in *; try (split; reflexivity).
  - rewrite andb_true_r in H. rewrite H. split; reflexivity.
  - apply andb_true_iff in H. destruct H as [H1 H2]. rewrite H1.
    apply andb_true_iff in H2. destruct H2 as [H2 _]. rewrite H2. split; reflexivity.
Qed.

(** An operation that sends one request and ignores the response. *)
Lemma fire_and_forget (req : Http.Request) (w : Http.Net Store) :
  connected 1 w = true ->
  fst ((Http.fetch server req ;;; ret VUndefined) w) = inr VUndefined.
Proof.
  intros H. destruct (fetch_connected req w H) as [r Hr]. unfold bind.
  destruct (Http.fetch server req w) as [[e|r'] w']; simpl in *; [discriminate Hr | reflexivity].
Qed.

Lemma fire_and_forget_twice (req : Http.Request) (w : Http.Net Store) :
  connected 2 w = true ->
  fst (((Http.fetch server req ;;; ret VUndefined) ;;;
        (Http.fetch server req ;;; ret VUndefined)) w) = inr VUndefined.
Proof.
  intros H.
  assert (T : one_trip (Http.fetch server req ;;; @ret (Http.Net Store) value VUndefined))
    by count_trips.
  destruct (connected_next w _ H (proj2 (T w))) as [H1 H2].
  pose proof (fire_and_forget req w H1) as F1.
  pose proof (fire_and_forget req _ H2) as F2.
  unfold bind at 1.
  destruct ((Http.fetch server req ;;; ret VUndefined) w) as [[e|a] w'];
    simpl in *; [discriminate F1 | exact F2].
Qed.

End Delete.

(** Claim C8, as stated, fails: the query-DSL bridge defines no [delete]. *)
Lemma C8_query_dsl_bridge_has_no_delete :
  Bridge.delete query_dsl_bridge = None /\
  ~ (exists del, Bridge.delete query_dsl_bridge = Some del).
Proof. split; [reflexivity | intros [del H]; discriminate H]. Qed.

(** Claim C8, amended.  The two REST bridges provide [delete(path)], the
    query-DSL bridge does not.  In the REST bridges [delete] ignores the
    response: it succeeds whenever its round trip is not rejected, so that a
    second [delete] of the same path right after the first succeeds as well;
    and against the specified service the datalayer bridge's [delete] removes
    the path, leaves a store without the path as it is, and a second [delete]
    changes nothing more. *)
Theorem C8_rest_delete_is_idempotent :
  (forall (Store : Type) (server : Http.Request -> Store -> Http.Response * Store)
          (domain : string),
      Bridge.delete (rest_graphql_bridge server domain)
        = Some (RestGraphql.delete Store server domain) /\
      Bridge.delete (rest_datalayer_bridge server domain)
        = Some (RestDatalayer.delete Store server domain)) /\
  (forall (Store : Type) (server : Http.Request -> Store -> Http.Response * Store)
          (domain : string) (w : Http.Net Store) (p : string),
      connected 1 w = true ->
      fst (RestGraphql.delete Store server domain p w) = inr VUndefined /\
      fst (RestDatalayer.delete Store server domain p w) = inr VUndefined) /\
  (forall (Store : Type) (server : Http.Request -> Store -> Http.Response * Store)
          (domain : string) (w : Http.Net Store) (p : string),
      connected 2 w = true ->
      fst ((RestGraphql.delete Store server domain p ;;;
            RestGraphql.delete Store server domain p) w) = inr VUndefined /\
      fst ((RestDatalayer.delete Store server domain p ;;;
            RestDatalayer.delete Store server domain p) w) = inr VUndefined) /\
  (forall (endpoint p : string) (st : Backend.Store) (n : nat),
      RestDatalayer.delete Backend.Store (Backend.handle endpoint) endpoint p
        (mkWorld st [] n)
        = (inr VUndefined, mkWorld (Backend.remove p st) [] (S n)) /\
      Backend.lookup p (Backend.remove p st) = None /\
      Backend.remove p (Backend.remove p st) = Backend.remove p st /\
      (Backend.lookup p st = None -> Backend.remove p st = st)).
Proof.
  split; [intros; split; reflexivity|].
  split; [intros; split; now apply fire_and_forget|].
  split; [intros; split; now apply fire_and_forget_twice|].
  intros endpoint p st n. split; [|split; [apply lookup_remove|split;
    [apply remove_remove | apply remove_absent]]].
  unfold RestDatalayer.delete, bind, Http.fetch, next_trip. simpl.
  rewrite handle_delete. reflexivity.
Qed.

(** Deleting a path that is not stored, twice, the first time through a
    server error. *)
Lemma C8_rest_delete_is_idempotent_witness :
  fst ((RestDatalayer.delete Backend.Store example_server example_endpoint "posts/none.md" ;;;
        RestDatalayer.delete Backend.Store example_server example_endpoint "posts/none.md")
         (mkWorld [("posts/a.md", "A")] [Http.Answer server_error] 0)) = inr VUndefined /\
  fst (RestGraphql.delete Backend.Store example_server example_endpoint "posts/none.md"
         (mkWorld [("posts/a.md", "A")] [] 0)) = inr VUndefined /\
  Backend.remove "posts/none.md" [("posts/a.md", "A")] = [("posts/a.md", "A")].
Proof.
  split; [|split].
  - apply (proj1 (proj2 (proj2 C8_rest_delete_is_idempotent))). reflexivity.
  - apply (proj1 (proj2 C8_rest_delete_is_idempotent)). reflexivity.
  - apply (proj2 (proj2 (proj2 C8_rest_delete_is_idempotent)) example_endpoint _ _ 0).
    reflexivity.
Defined.

(** ** The Fauna collection *)

Lemma refs_where_cons (p : Fauna.Document -> bool) (d : Fauna.Document) (c : Fauna.Collection) :
  Fauna.refs_where p (d :: c)
  = ((if p d then [0] else []) ++ map S (Fauna.refs_where p c))%list.
Proof.
  unfold Fauna.refs_where. cbn [length seq filter nth_error].
  rewrite <- seq_shift, filter_map_swap. cbn [nth_error].
  destruct (p d); reflexivity.
Qed.

Lemma refs_where_snoc (p : Fauna.Document -> bool) (d : Fauna.Document) (c : Fauna.Collection) :
  Fauna.refs_where p (c ++ [d])%list
  = (Fauna.refs_where p c ++ (if p d then [length c] else []))%list.
Proof.
  induction c as [|x c IH].
  - unfold Fauna.refs_where. simpl. destruct (p d); reflexivity.
  - change ((x :: c) ++ [d])%list with (x :: (c ++ [d]))%list.
    rewrite !refs_where_cons, IH, map_app, app_assoc.
    destruct (p d); reflexivity.
Qed.

Lemma refs_where_absent (p : Fauna.Document -> bool) (c : Fauna.Collection) :
  existsb p c = false -> Fauna.refs_where p c = [].
Proof.
  induction c as [|d c IH]; [reflexivity|].
  simpl. intros H. apply orb_false_iff in H. destruct H as [Hd Hc].
  rewrite refs_where_cons, Hd, (IH Hc). reflexivity.
Qed.

(** The head of the index is a document that matches, and stays the head when
    this document is replaced by another that matches. *)
Lemma refs_where_head (p : Fauna.Document -> bool) (c : Fauna.Collection) :
  forall r rest,
    Fauna.refs_where p c = r :: rest ->
    (exists d, nth_error c r = Some d /\ p d = true) /\
    (forall d', p d' = true ->
       (exists rest', Fauna.refs_where p (Fauna.replace_at r d' c) = r :: rest') /\
       nth_error (Fauna.replace_at r d' c) r = Some d').
Proof.
  induction c as [|d c IH]; intros r rest H; [discriminate H|].
  rewrite refs_where_cons in H. destruct (p d) eqn:Hd.
  - injection H as <- _. split; [exists d; auto|].
    intros d' Hd'. simpl. rewrite refs_where_cons, Hd'. split; [eexists|]; reflexivity.
  - simpl in H. destruct (Fauna.refs_where p c) as [|r0 rest0] eqn:E; [discriminate H|].
    injection H as <- _. destruct (IH r0 rest0 eq_refl) as [[d0 [Hn Hp]] Hrep].
    split; [exists d0; auto|].
    intros d' Hd'. destruct (Hrep d' Hd') as [[rest' Hr] Hn'].
    simpl. rewrite refs_where_cons, Hd, Hr. split; [eexists; reflexivity | exact Hn'].
Qed.

Lemma with_backend_same {St O : Type} (w : World St O) :
  with_backend (after_trip w) (backend w) = after_trip w.
Proof. reflexivity. Qed.

Lemma query_delivered {A : Type} (expr : Fauna.Query A) (w : Fauna.Client) :
  delivered w = true ->
  Fauna.query expr w
  = match expr (backend w) with
    | (inr a, c') => (inr a, with_backend (after_trip w) c')
    | (inl e, _) => (inl e, after_trip w)
    end.
Proof.
  unfold delivered, Fauna.query, next_trip, after_trip.
  destruct w as [c [|[|e] rest] n]; simpl; intros H; try discriminate H; reflexivity.
Qed.

Lemma get_query_absent (p : string) (c : Fauna.Collection) :
  absent p c = true -> QueryDSL.get_query p c = (inl Fauna.NotFound, c).
Proof.
  unfold absent. intros H. apply negb_true_iff in H.
  unfold QueryDSL.get_query, Fauna.Match_page_by_filename, bind.
  rewrite (refs_where_absent _ _ H). reflexivity.
Qed.

Lemma get_query_present (p : string) (c : Fauna.Collection) (r : Fauna.Ref)
  (rest : list Fauna.Ref) (d : Fauna.Document) :
  Fauna.refs_where (fun d => String.eqb (Fauna.filename d) p) c = r :: rest ->
  nth_error c r = Some d ->
  QueryDSL.get_query p c = (inr (VStr (Fauna.page d)), c).
Proof.
  intros Hr Hd. unfold QueryDSL.get_query, Fauna.Match_page_by_filename, bind.
  rewrite Hr. simpl. unfold Fauna.Get. rewrite Hd. reflexivity.
Qed.

Lemma query_dsl_get_absent (p : string) (w : Fauna.Client) :
  delivered w = true ->
  absent p (backend w) = true ->
  QueryDSL.get p w
  = (inl (GraphQLError QueryDSL.unauthorized_message (Some Fauna.NotFound)
            "instance not found"),
     after_trip w).
Proof.
  intros Hw Ha. unfold QueryDSL.get, try_catch, bind.
  rewrite (query_delivered _ w Hw), (get_query_absent p _ Ha). reflexivity.
Qed.

Lemma query_dsl_get_present (p : string) (w : Fauna.Client) (r : Fauna.Ref)
  (rest : list Fauna.Ref) (d : Fauna.Document) :
  delivered w = true ->
  Fauna.refs_where (fun d => String.eqb (Fauna.filename d) p) (backend w) = r :: rest ->
  nth_error (backend w) r = Some d ->
  QueryDSL.get p w = (inr (VStr (Fauna.page d)), after_trip w).
Proof.
  intros Hw Hr Hd. unfold QueryDSL.get, try_catch, bind.
  rewrite (query_delivered _ w Hw), (get_query_present p _ r rest d Hr Hd). reflexivity.
Qed.

(** ** [get] of a document that is absent, and of one the caller may not read *)

(** Against the specified service, [get] of either REST bridge returns the
    empty string for a path that is not stored. *)
Lemma rest_get_absent (endpoint p : string) (st : Backend.Store) (n : nat) :
  query_safe p = true ->
  Backend.lookup p st = None ->
  RestDatalayer.get Backend.Store (Backend.handle endpoint) endpoint p (mkWorld st [] n)
    = (inr (VStr ""), mkWorld st [] (S n)) /\
  RestGraphql.get Backend.Store (Backend.handle endpoint) endpoint p (mkWorld st [] n)
    = (inr (VStr ""), mkWorld st [] (S n)).
Proof.
  intros Hp Ha.
  unfold RestDatalayer.get, RestGraphql.get, bind, Http.fetch, next_trip.
  cbn [pending hd_error backend tl trips]. rewrite handle_read. unfold Backend.query_value.
  rewrite (break_none _ p Hp). cbn [fst]. rewrite Ha. split; reflexivity.
Qed.

(** Claim C5 holds of the two REST bridges and fails of the query-DSL bridge:
    when no document has the file name [p] and the query reaches the database,
    [Get] of the empty match fails with [NotFound], and [get] throws the
    [GraphQLError] that reports an unauthorized request; the [return ''] of
    its [try] block is never reached. *)
Theorem C5_query_dsl_get_throws_on_absent_document :
  forall (p : string) (w : Fauna.Client),
    delivered w = true ->
    absent p (backend w) = true ->
    QueryDSL.get p w
    = (inl (GraphQLError
              "Unauthorized request to Fauna Database: please ensure your access token is valid."
              (Some (Error "NotFound" "instance not found"))
              "instance not found"),
       after_trip w).
Proof. exact query_dsl_get_absent. Qed.

(** [get("posts/none.md")] on a collection that holds [posts/a.md] only. *)
Lemma C5_query_dsl_get_throws_on_absent_document_witness :
  QueryDSL.get "posts/none.md"
    (mkWorld [ {| Fauna.filename := "posts/a.md"; Fauna.page := "A" |} ] [] 0)
  = (inl (GraphQLError
            "Unauthorized request to Fauna Database: please ensure your access token is valid."
            (Some (Error "NotFound" "instance not found"))
            "instance not found"),
     mkWorld [ {| Fauna.filename := "posts/a.md"; Fauna.page := "A" |} ] [] 1).
Proof.
  apply (C5_query_dsl_get_throws_on_absent_document "posts/none.md"
           (mkWorld [ {| Fauna.filename := "posts/a.md"; Fauna.page := "A" |} ] [] 0));
    reflexivity.
Defined.

(** Claim C6, as stated, fails.  When the service rejects the credentials
    (HTTP 401) the datalayer bridge's [get] returns the empty string, no
    error; and in the query-DSL bridge a [get] of a missing document, the
    credentials being accepted, ends in the very error that reports rejected
    credentials. *)
Lemma C6_auth_failure_not_told_apart :
  RestDatalayer.get Backend.Store example_server example_endpoint "posts/a.md"
    (mkWorld [("posts/a.md", "A")] [Http.Answer credentials_rejected] 0)
    = (inr (VStr ""), mkWorld [("posts/a.md", "A")] [] 1) /\
  (exists e,
      fst (QueryDSL.get "posts/none.md" (mkWorld [] [Fauna.Delivered] 0)) = inl e /\
      is_auth_error e = true /\
      fst (QueryDSL.get "posts/none.md" (mkWorld [] [Fauna.Failed Fauna.Unauthorized] 0))
        = inl (GraphQLError (message_of e) (Some Fauna.Unauthorized) "unauthorized")).
Proof.
  split; [reflexivity|].
  eexists. split; [reflexivity|]. split; reflexivity.
Qed.

(** Claim C6, amended.  Only the query-DSL bridge has an error for rejected
    credentials: when the driver fails with [Unauthorized], [get] throws a
    [GraphQLError] with the message "Unauthorized request to Fauna Database:
    please ensure your access token is valid.", the driver's error as
    [originalError] and its message as [extensions.status].  The REST bridges
    have none: on a response that rejects the credentials, as on any response
    that is not [ok], [get] of the datalayer bridge returns [''], and [get] of
    the graphql REST bridge returns the response's JSON body, or fails with the
    [SyntaxError] of [json()] when the body is not JSON. *)
Theorem C6_auth_failure_in_get :
  (forall (p : string) (c : Fauna.Collection) (rest : list Fauna.fate) (n : nat),
      QueryDSL.get p (mkWorld c (Fauna.Failed Fauna.Unauthorized :: rest) n)
      = (inl (GraphQLError QueryDSL.unauthorized_message (Some Fauna.Unauthorized)
                "unauthorized"),
         mkWorld c rest (S n)) /\
      is_auth_error (GraphQLError QueryDSL.unauthorized_message (Some Fauna.Unauthorized)
                       "unauthorized") = true) /\
  (forall (Store : Type) (server : Http.Request -> Store -> Http.Response * Store)
          (domain p : string) (st : Store) (r : Http.Response) (rest : list Http.fate)
          (n : nat),
      Http.ok r = false ->
      RestDatalayer.get Store server domain p (mkWorld st (Http.Answer r :: rest) n)
      = (inr (VStr ""), mkWorld st rest (S n))) /\
  (forall (Store : Type) (server : Http.Request -> Store -> Http.Response * Store)
          (domain p : string) (st : Store) (r : Http.Response) (rest : list Http.fate)
          (n : nat),
      RestGraphql.get Store server domain p (mkWorld st (Http.Answer r :: rest) n)
      = (match Http.payload r with
         | Some v => inr (if defined v then v else VStr "")
         | None => inl (Error "SyntaxError" "Unexpected end of JSON input")
         end,
         mkWorld st rest (S n))).
Proof.
  split; [intros; split; reflexivity|].
  split.
  - intros Store server domain p st r rest n Hr.
    unfold RestDatalayer.get, bind, Http.fetch, next_trip; simpl. rewrite Hr. reflexivity.
  - intros Store server domain p st r rest n.
    unfold RestGraphql.get, bind, Http.fetch, next_trip, Http.json; simpl.
    destruct (Http.payload r) as [v|]; [|reflexivity].
    unfold ret. destruct v; reflexivity.
Qed.

(** [get] of the datalayer bridge, answered by HTTP 401. *)
Lemma C6_auth_failure_in_get_witness :
  RestDatalayer.get Backend.Store example_server example_endpoint "posts/a.md"
    (mkWorld [("posts/a.md", "A")] [Http.Answer credentials_rejected] 0)
  = (inr (VStr ""), mkWorld [("posts/a.md", "A")] [] 1).
Proof.
  apply (proj1 (proj2 C6_auth_failure_in_get)
           Backend.Store example_server example_endpoint "posts/a.md"
           [("posts/a.md", "A")] credentials_rejected [] 0).
  reflexivity.
Defined.

(** ** [glob] *)

Lemma prefix_empty (s : string) : String.prefix "" s = true.
Proof. destruct s; reflexivity. Qed.

Lemma literal_not_dot (c : ascii) : Fauna.is_meta c = false -> Ascii.eqb c "." = false.
Proof.
  intros H. destruct (Ascii.eqb c ".") eqn:E; [|reflexivity].
  apply Ascii.eqb_eq in E. subst c. discriminate H.
Qed.

(** A pattern without special characters matches at the start of the names
    it is a prefix of, and there only. *)
Lemma literal_atoms (q : string) :
  Fauna.literal q = true ->
  exists a, Fauna.atoms q = Some a /\
            forall name, Fauna.match_atoms a name
                         = if String.prefix q name then Some q else None.
Proof.
  induction q as [|c q IH]; intros H.
  - exists []. split; [reflexivity|]. intros name. now rewrite prefix_empty.
  - unfold Fauna.literal in H. simpl in H. apply andb_true_iff in H.
    destruct H as [Hc Hq]. apply negb_true_iff in Hc.
    destruct (IH Hq) as [a [Ha Hm]].
    exists (Fauna.Lit c :: a). split.
    + simpl. rewrite (literal_not_dot c Hc), Hc, Ha. reflexivity.
    + intros [|d name]; simpl; [reflexivity|].
      destruct (ascii_dec c d) as [->|Hn].
      * rewrite Ascii.eqb_refl, Hm. destruct (String.prefix q name); reflexivity.
      * apply Ascii.eqb_neq in Hn. rewrite Hn. reflexivity.
Qed.

Lemma find_literal (q name : string) :
  Fauna.literal q = true ->
  Fauna.FindStrRegex name ("^" ++ q) = inr (if startsWith name q then [q] else []).
Proof.
  intros H. destruct (literal_atoms q H) as [a [Ha Hm]].
  unfold Fauna.FindStrRegex, startsWith. simpl. rewrite Ha, Hm.
  destruct (String.prefix q name); reflexivity.
Qed.

Lemma Filter_pure {A : Type} (set : list A) (test : A -> Fauna.Query bool)
  (f : A -> bool) (c : Fauna.Collection) :
  (forall x, In x set -> test x c = (inr (f x), c)) ->
  Fauna.Filter set test c = (inr (filter f set), c).
Proof.
  induction set as [|x set IH]; intros H; [reflexivity|].
  simpl. unfold bind. rewrite (H x (or_introl eq_refl)).
  rewrite IH by (intros y Hy; apply H; now right).
  destruct (f x); reflexivity.
Qed.

Lemma Map_pure {A B : Type} (l : list A) (g : A -> Fauna.Query B)
  (h : A -> B) (c : Fauna.Collection) :
  (forall x, In x l -> g x c = (inr (h x), c)) ->
  Fauna.Map l g c = (inr (map h l), c).
Proof.
  induction l as [|x l IH]; intros H; [reflexivity|].
  simpl. unfold bind. rewrite (H x (or_introl eq_refl)).
  rewrite IH by (intros y Hy; apply H; now right).
  reflexivity.
Qed.

(** Reading a field of every document by reference is reading it off the list. *)
Lemma map_refs {B : Type} (h : Fauna.Document -> B) (dflt : B) (c : Fauna.Collection) :
  map (fun r => match nth_error c r with Some d => h d | None => dflt end) (seq 0 (length c))
  = map h c.
Proof.
  induction c as [|d c IH]; [reflexivity|].
  cbn [length seq map nth_error]. rewrite <- seq_shift, map_map. cbn [nth_error].
  now rewrite IH.
Qed.

Lemma In_firstn {A : Type} (n : nat) (l : list A) (x : A) : In x (firstn n l) -> In x l.
Proof.
  revert l. induction n as [|n IH]; intros l H; [contradiction H|].
  destruct l as [|y l]; [contradiction H|].
  destruct H as [H|H]; [now left | right; now apply IH].
Qed.

Lemma Get_ref (c : Fauna.Collection) (r : Fauna.Ref) :
  In r (seq 0 (length c)) ->
  exists d, nth_error c r = Some d /\
            Fauna.Get r c = (inr {| Fauna.ref := r; Fauna.doc := d |}, c) /\
            name_at c r = Fauna.filename d.
Proof.
  intros H. apply in_seq in H. destruct H as [_ H]. simpl in H.
  destruct (nth_error c r) as [d|] eqn:E.
  - exists d. unfold Fauna.Get, name_at. rewrite E. auto.
  - apply nth_error_None in E. lia.
Qed.

Lemma readDir_query_literal (q : string) (c : Fauna.Collection) :
  Fauna.literal q = true ->
  QueryDSL.readDir_query q c
  = (inr {| Fauna.data :=
              Some (firstn QueryDSL.page_size (matching q (map Fauna.filename c))) |},
     c).
Proof.
  intros Hq. unfold QueryDSL.readDir_query, bind at 1, Fauna.Documents.
  unfold bind at 1.
  rewrite (Filter_pure _ _ (fun r => startsWith (name_at c r) q)).
  2:{ intros r Hr. destruct (Get_ref c r Hr) as [d [_ [Hg Hn]]].
      unfold bind, lift, ret. rewrite Hg. cbn [Fauna.doc].
      rewrite (find_literal q _ Hq), Hn.
      destruct (startsWith (Fauna.filename d) q); reflexivity. }
  unfold bind at 1.
  rewrite (Map_pure _ _ (name_at c)).
  2:{ intros r Hr. unfold Fauna.Paginate in Hr. apply In_firstn in Hr.
      apply filter_In in Hr. destruct Hr as [Hr _].
      destruct (Get_ref c r Hr) as [d [_ [Hg Hn]]].
      unfold bind, ret. rewrite Hg, Hn. reflexivity. }
  unfold ret, Fauna.Paginate, matching.
  rewrite <- firstn_map, <- (filter_map_swap (fun p => startsWith p q) (name_at c)).
  unfold name_at. rewrite <- (map_refs Fauna.filename "" c). reflexivity.
Qed.

Lemma query_dsl_glob_literal (q : string) (w : Fauna.Client) :
  delivered w = true ->
  Fauna.literal q = true ->
  QueryDSL.glob q w
  = (inr (VArr (map VStr
            (firstn QueryDSL.page_size (matching q (map Fauna.filename (backend w)))))),
     after_trip w).
Proof.
  intros Hw Hq. unfold QueryDSL.glob, QueryDSL.readDir, bind.
  rewrite (query_delivered _ w Hw), (readDir_query_literal q _ Hq). reflexivity.
Qed.

Lemma rest_datalayer_glob (endpoint q : string) (st : Backend.Store) (n : nat) :
  RestDatalayer.glob Backend.Store (Backend.handle endpoint) endpoint q (mkWorld st [] n)
  = (inr (VArr (map VStr (matching q (Backend.paths st)))), mkWorld st [] (S n)).
Proof.
  unfold RestDatalayer.glob, RestDatalayer.readDir, bind, Http.fetch, next_trip.
  cbn [pending hd_error backend]. rewrite handle_list. reflexivity.
Qed.

(** Claim C3, as stated, fails in the query-DSL bridge.  The prefix is spliced
    into a regular expression: [glob("a.c")] returns the stored path [abc],
    which does not start with [a.c].  And the query reads one page of
    12000 entries: of 12001 stored paths that start with [doc/], the last is
    not returned. *)
Lemma C3_glob_is_not_the_prefix_filter :
  QueryDSL.glob "a.c"
    (mkWorld [ {| Fauna.filename := "abc"; Fauna.page := "" |} ] [] 0)
    = (inr (VArr [VStr "abc"]),
       mkWorld [ {| Fauna.filename := "abc"; Fauna.page := "" |} ] [] 1) /\
  startsWith "abc" "a.c" = false /\
  existsb (fun d => String.eqb (Fauna.filename d) "doc/12000") (numbered_collection 12001)
    = true /\
  startsWith "doc/12000" "doc/" = true /\
  lists (fst (QueryDSL.glob "doc/" (mkWorld (numbered_collection 12001) [] 0))) "doc/12000"
    = false.
Proof.
  split; [reflexivity|]. split; [reflexivity|].
  split; [vm_compute; reflexivity|]. split; [reflexivity|].
  rewrite (query_dsl_glob_literal "doc/" (mkWorld (numbered_collection 12001) [] 0)
             eq_refl eq_refl).
  vm_compute. reflexivity.
Qed.

(** Claim C3, amended.  In the query-DSL bridge, for a prefix [q] without a
    character that is special in a regular expression and a query that reaches
    the database, [glob(q)] returns the first 12000 of the stored paths that
    start with [q], in the order of the documents: all of them when there are
    at most 12000, that is, a path is returned if and only if it is stored and
    starts with [q]; and the empty sequence, not an error, when no stored path
    starts with [q].  In the datalayer bridge, against the specified service,
    [glob(q)] returns exactly the stored paths that start with [q], for every
    [q], and the empty sequence when there is none. *)
Theorem C3_glob_returns_the_paths_with_the_prefix :
  (forall (q : string) (w : Fauna.Client),
      delivered w = true ->
      Fauna.literal q = true ->
      QueryDSL.glob q w
      = (inr (VArr (map VStr
                (firstn QueryDSL.page_size
                   (matching q (map Fauna.filename (backend w)))))),
         after_trip w)) /\
  (forall (q : string) (w : Fauna.Client),
      delivered w = true ->
      Fauna.literal q = true ->
      Nat.leb (length (matching q (map Fauna.filename (backend w)))) 12000 = true ->
      QueryDSL.glob q w
      = (inr (VArr (map VStr (matching q (map Fauna.filename (backend w))))),
         after_trip w)) /\
  (forall (q : string) (st : Backend.Store) (endpoint : string) (n : nat),
      RestDatalayer.glob Backend.Store (Backend.handle endpoint) endpoint q
        (mkWorld st [] n)
      = (inr (VArr (map VStr (matching q (Backend.paths st)))), mkWorld st [] (S n))) /\
  (forall (q : string) (paths : list string),
      (forall p, In p (matching q paths) <-> In p paths /\ startsWith p q = true) /\
      ((forall p, In p paths -> startsWith p q = false) -> matching q paths = [])).
Proof.
  split; [intros q w Hw Hq; exact (query_dsl_glob_literal q w Hw Hq)|].
  split.
  { intros q w Hw Hq Hn. rewrite (query_dsl_glob_literal q w Hw Hq).
    rewrite firstn_all2; [reflexivity | apply Nat.leb_le; exact Hn]. }
  split; [intros; apply rest_datalayer_glob|].
  intros q paths. split.
  - intros p. exact (filter_In (fun p => startsWith p q) p paths).
  - intros H. unfold matching. induction paths as [|x paths IH]; [reflexivity|].
    simpl. rewrite (H x (or_introl eq_refl)). apply IH.
    intros p Hp. apply H. now right.
Qed.

(** [glob("posts/")] over three documents, two of them under [posts/]. *)
Lemma C3_glob_returns_the_paths_with_the_prefix_witness :
  QueryDSL.glob "posts/"
    (mkWorld [ {| Fauna.filename := "posts/a.md"; Fauna.page := "A" |};
               {| Fauna.filename := "pages/b.md"; Fauna.page := "B" |};
               {| Fauna.filename := "posts/c.md"; Fauna.page := "C" |} ] [] 0)
  = (inr (VArr [VStr "posts/a.md"; VStr "posts/c.md"]),
     mkWorld [ {| Fauna.filename := "posts/a.md"; Fauna.page := "A" |};
               {| Fauna.filename := "pages/b.md"; Fauna.page := "B" |};
               {| Fauna.filename := "posts/c.md"; Fauna.page := "C" |} ] [] 1) /\
  matching "drafts/" ["posts/a.md"; "pages/b.md"] = [].
Proof.
  split.
  - apply (proj1 (proj2 C3_glob_returns_the_paths_with_the_prefix) "posts/"
             (mkWorld [ {| Fauna.filename := "posts/a.md"; Fauna.page := "A" |};
                        {| Fauna.filename := "pages/b.md"; Fauna.page := "B" |};
                        {| Fauna.filename := "posts/c.md"; Fauna.page := "C" |} ] [] 0)).
    + reflexivity.
    + reflexivity.
    + vm_compute. reflexivity.
  - apply (proj2 (proj2 (proj2 C3_glob_returns_the_paths_with_the_prefix)) "drafts/"
             ["posts/a.md"; "pages/b.md"]).
    intros p [<-|[<-|[]]]; reflexivity.
Defined.

(** ** [put] followed by [get] *)

Lemma put_query_stores (p v : string) (c : Fauna.Collection) :
  exists inst c' r rest,
    QueryDSL.put_query p v c = (inr inst, c') /\
    Fauna.refs_where (fun d => String.eqb (Fauna.filename d) p) c' = r :: rest /\
    nth_error c' r = Some {| Fauna.filename := p; Fauna.page := v |}.
Proof.
  unfold QueryDSL.put_query, Fauna.Match_page_by_filename, bind.
  destruct (Fauna.refs_where (fun d => String.eqb (Fauna.filename d) p) c)
    as [|r rest] eqn:E.
  - simpl. unfold Fauna.Create. do 2 eexists. exists (length c), []. split; [reflexivity|].
    rewrite refs_where_snoc, E. cbn [Fauna.filename]. rewrite String.eqb_refl.
    split; [reflexivity|].
    rewrite nth_error_app2, Nat.sub_diag by lia. reflexivity.
  - destruct (refs_where_head _ c r rest E) as [[d [Hd _]] Hrep].
    destruct (Hrep {| Fauna.filename := p; Fauna.page := v |} (String.eqb_refl p))
      as [[rest' Hr] Hn].
    simpl. unfold Fauna.Get. rewrite Hd. cbn [Fauna.ref]. unfold Fauna.Update. rewrite Hd.
    do 2 eexists. exists r, rest'. split; [reflexivity|]. split; assumption.
Qed.

(** The query-DSL bridge reads back what it wrote. *)
Lemma query_dsl_put_get (p v : string) (w : Fauna.Client) :
  delivered w = true ->
  delivered (after_trip w) = true ->
  fst ((QueryDSL.put p v ;;; QueryDSL.get p) w) = inr (VStr v).
Proof.
  intros H1 H2. unfold QueryDSL.put, bind at 1, bind at 1.
  rewrite (query_delivered _ w H1).
  destruct (put_query_stores p v (backend w)) as (inst & c' & r & rest & Hp & Hr & Hn).
  rewrite Hp. unfold ret.
  rewrite (query_dsl_get_present p (with_backend (after_trip w) c') r rest _ H2 Hr Hn).
  reflexivity.
Qed.

(** So does the datalayer bridge against the specified service, for a path
    that the query string of the read carries unchanged. *)
Lemma rest_datalayer_put_get (endpoint p v : string) (st : Backend.Store) (n : nat) :
  query_safe p = true ->
  (RestDatalayer.put Backend.Store (Backend.handle endpoint) endpoint p v ;;;
   RestDatalayer.get Backend.Store (Backend.handle endpoint) endpoint p) (mkWorld st [] n)
  = (inr (VStr v), mkWorld (Backend.upsert p v st) [] (S (S n))).
Proof.
  intros Hp.
  unfold RestDatalayer.put, RestDatalayer.get, bind, Http.fetch, next_trip.
  cbn [pending hd_error backend tl trips]. rewrite handle_write.
  cbn [Backend.respond Http.ok Http.status Http.json Http.payload with_backend
       pending hd_error backend tl trips Nat.leb andb ret].
  rewrite handle_read. unfold Backend.query_value.
  rewrite (break_none _ p Hp). cbn [fst]. rewrite lookup_upsert. reflexivity.
Qed.

(** The path goes into the query string as it is: a [#] in it starts the
    fragment, which is not sent, and the read asks for another path. *)
Example rest_datalayer_put_get_fragment :
  (RestDatalayer.put Backend.Store example_server example_endpoint "notes/c#.md" "sharp" ;;;
   RestDatalayer.get Backend.Store example_server example_endpoint "notes/c#.md")
    (mkWorld [] [] 0)
  = (inr (VStr ""), mkWorld [("notes/c#.md", "sharp")] [] 2).
Proof. reflexivity. Qed.

(** The graphql REST bridge sends the text [[object Object]] whatever it is
    asked to write: what [put] does, and what a [get] after it returns, depend
    neither on the path written nor on the payload. *)
Lemma rest_graphql_put_constant {Store : Type}
  (server : Http.Request -> Store -> Http.Response * Store) (domain : string)
  (w : Http.Net Store) (p v p' v' : string) :
  RestGraphql.put Store server domain p v w = RestGraphql.put Store server domain p' v' w.
Proof. reflexivity. Qed.

(** Claim C2 holds of the query-DSL and datalayer bridges and fails of the
    REST revision of the graphql bridge: its [put] sends [{ ... }.toString()],
    the text [[object Object]], so that for every server the outcome of a
    [put] followed by a [get] is the same for all payloads; against the
    specified service, [put("posts/a.md", "hello")] is refused, fails in
    [json()], stores nothing, and the [get] that follows returns ['']. *)
Theorem C2_rest_graphql_put_loses_the_payload :
  (forall (Store : Type) (server : Http.Request -> Store -> Http.Response * Store)
          (domain : string) (w : Http.Net Store) (p q v v' : string),
      (RestGraphql.put Store server domain p v ;;; RestGraphql.get Store server domain q) w
      = (RestGraphql.put Store server domain p v' ;;; RestGraphql.get Store server domain q) w) /\
  RestGraphql.put Backend.Store example_server example_endpoint "posts/a.md" "hello"
    (mkWorld [] [] 0)
    = (inl (Error "SyntaxError" "Unexpected end of JSON input"), mkWorld [] [] 1) /\
  RestGraphql.get Backend.Store example_server example_endpoint "posts/a.md"
    (mkWorld [] [] 1)
    = (inr (VStr ""), mkWorld [] [] 2).
Proof.
  split; [|split; reflexivity].
  intros Store server domain w p q v v'. unfold bind.
  rewrite (rest_graphql_put_constant server domain w p v p v'). reflexivity.
Qed.

(* ===================================================================== *)
(** * Part III: further properties of the code                            *)
(* ===================================================================== *)

(** ** The connection resolver, continued *)

Lemma append_empty_r (s : string) : s ++ "" = s.
Proof. induction s as [|c s IH]; simpl; [reflexivity | now rewrite IH]. Qed.

(** The pattern of [parseURL], compiled. *)
Lemma hosted_pattern :
  UrlPattern.new "/content/:clientId/github/*" {| UrlPattern.escapeChar := " " |}
  = inr [UrlPattern.Static "/content/"; UrlPattern.Named "clientId";
         UrlPattern.Static "/github/"; UrlPattern.Wildcard].
Proof. reflexivity. Qed.

(** A wildcard at the end of the pattern takes the rest of the path. *)
Lemma wildcard_to_the_end (b taken : string) :
  forallb_string UrlPattern.dot b = true ->
  UrlPattern.wildcard_from (UrlPattern.match_nodes []) taken b = Some [taken ++ b].
Proof.
  revert taken. induction b as [|c b IH]; intros taken H.
  - simpl. now rewrite append_empty_r.
  - simpl in H. apply andb_true_iff in H. destruct H as [Hc Hb].
    simpl. rewrite Hc, (IH _ Hb), append_assoc. reflexivity.
Qed.

(** A named segment takes all the characters of its alphabet up to a [/]. *)
Lemma named_up_to_slash (k : string -> option (list string)) (id taken rest : string)
  (caps : list string) :
  forallb_string UrlPattern.segmentValueChar id = true ->
  k (String "/" rest) = Some caps ->
  UrlPattern.named_from k taken (id ++ String "/" rest) = Some ((taken ++ id) :: caps).
Proof.
  revert taken. induction id as [|c id IH]; intros taken H Hk.
  - simpl. rewrite Hk, append_empty_r. reflexivity.
  - simpl in H. apply andb_true_iff in H. destruct H as [Hc Hid].
    simpl. rewrite Hc, (IH _ Hid Hk), append_assoc. reflexivity.
Qed.

Lemma match_hosted_path (id b : string) :
  String.eqb id "" = false ->
  forallb_string UrlPattern.segmentValueChar id = true ->
  forallb_string UrlPattern.dot b = true ->
  UrlPattern.match_
    [UrlPattern.Static "/content/"; UrlPattern.Named "clientId";
     UrlPattern.Static "/github/"; UrlPattern.Wildcard]
    ("/content/" ++ id ++ "/github/" ++ b)
  = Some [("clientId", id); ("_", b)].
Proof.
  intros Hne Hid Hb. unfold UrlPattern.match_.
  destruct id as [|c id]; [discriminate Hne|].
  simpl in Hid. apply andb_true_iff in Hid. destruct Hid as [Hc Hid].
  cbn [UrlPattern.match_nodes UrlPattern.names].
  change ("/content/" ++ String c id ++ "/github/" ++ b)
    with ("/content/" ++ (String c id ++ "/github/" ++ b)).
  rewrite strip_prefix_append. unfold UrlPattern.match_named.
  cbn [append]. rewrite Hc.
  change ("/github/" ++ b) with (String "/" ("github/" ++ b)).
  rewrite (named_up_to_slash _ id (String c "") ("github/" ++ b) [b] Hid).
  - reflexivity.
  - change (String "/" ("github/" ++ b)) with ("/github/" ++ b).
    rewrite strip_prefix_append. apply (wildcard_to_the_end b "" Hb).
Qed.

Lemma truthy_nonempty (o : option string) :
  truthy o = true -> exists s, o = Some s /\ String.eqb s "" = false.
Proof.
  destruct o as [[|c s]|]; simpl; intros H; try discriminate H.
  now exists (String c s).
Qed.

(** X1.  A connection that [parseURL] returns is of exactly one of the three
    kinds: the local one, for an input that contains [localhost]; the Fauna
    one, which keeps the input, for an input of another host; or a hosted
    one, whose client id and branch are both non-empty strings. *)
Theorem parseURL_returns_one_of_three_variants :
  forall (new_URL : string -> exn + URL.t) (url : string) (c : Connection),
    parseURL new_URL url = inr c ->
    (includes url "localhost" = true /\ c = local_connection) \/
    (includes url "localhost" = false /\ c = fauna_connection url /\
     exists params, new_URL url = inr params /\
                    String.eqb (URL.host params) TINA_HOST = false) \/
    (includes url "localhost" = false /\
     exists client branch_ params,
       c = hosted_connection client branch_ /\
       String.eqb client "" = false /\ String.eqb branch_ "" = false /\
       new_URL url = inr params /\ URL.host params = TINA_HOST).
Proof.
  intros new_URL url c H. unfold parseURL in H.
  destruct (includes url "localhost") eqn:El.
  - left. injection H as <-. split; reflexivity.
  - right. destruct (new_URL url) as [e|params] eqn:Ep; [discriminate H|].
    rewrite hosted_pattern in H. cbv beta iota zeta in H.
    destruct (String.eqb (URL.host params) TINA_HOST) eqn:Eh.
    + right. split; [reflexivity|]. cbn [negb] in H.
      destruct (truthy (match UrlPattern.match_ _ (URL.pathname params) with
                        | Some o => UrlPattern.prop "_" o
                        | None => None
                        end)) eqn:Tb; [|discriminate H].
      destruct (truthy (match UrlPattern.match_ _ (URL.pathname params) with
                        | Some o => UrlPattern.prop "clientId" o
                        | None => None
                        end)) eqn:Tc; [|discriminate H].
      cbn [negb orb] in H. injection H as <-.
      destruct (truthy_nonempty _ Tb) as [b [-> Hb]].
      destruct (truthy_nonempty _ Tc) as [i [-> Hi]].
      exists i, b, params. apply String.eqb_eq in Eh. auto.
    + left. cbn [negb] in H. injection H as <-.
      split; [reflexivity|]. split; [reflexivity|]. now exists params.
Qed.

Lemma parseURL_returns_one_of_three_variants_witness :
  (includes "https://db.example/x" "localhost" = true /\
   fauna_connection "https://db.example/x" = local_connection) \/
  (includes "https://db.example/x" "localhost" = false /\
   fauna_connection "https://db.example/x" = fauna_connection "https://db.example/x" /\
   exists params, URL.parse "https://db.example/x" = inr params /\
                  String.eqb (URL.host params) TINA_HOST = false) \/
  (includes "https://db.example/x" "localhost" = false /\
   exists client branch_ params,
     fauna_connection "https://db.example/x" = hosted_connection client branch_ /\
     String.eqb client "" = false /\ String.eqb branch_ "" = false /\
     URL.parse "https://db.example/x" = inr params /\ URL.host params = TINA_HOST).
Proof.
  apply (parseURL_returns_one_of_three_variants URL.parse "https://db.example/x").
  reflexivity.
Defined.

(** X2.  [parseURL] throws in two ways only: with what [new URL] throws, on an
    input without [localhost]; or with the format error, which quotes the
    input, on a URL of the hosted service.  The pattern never fails to
    compile. *)
Theorem parseURL_throws_only_parse_and_format_errors :
  forall (new_URL : string -> exn + URL.t) (url : string) (e : exn),
    parseURL new_URL url = inl e ->
    includes url "localhost" = false /\
    (new_URL url = inl e \/
     (e = invalid_format url /\
      exists params, new_URL url = inr params /\ URL.host params = TINA_HOST)).
Proof.
  intros new_URL url e H. unfold parseURL in H.
  destruct (includes url "localhost"); [discriminate H|]. split; [reflexivity|].
  destruct (new_URL url) as [e'|params]; [left; injection H as <-; reflexivity|]. right.
  rewrite hosted_pattern in H. cbv beta iota zeta in H.
  destruct (String.eqb (URL.host params) TINA_HOST) eqn:Eh; cbn [negb] in H;
    [|discriminate H].
  destruct (negb _ || negb _) in H; [|discriminate H].
  injection H as <-. split; [reflexivity|]. exists params. apply String.eqb_eq in Eh. auto.
Qed.

Lemma parseURL_throws_only_parse_and_format_errors_witness :
  includes "https://content.tinajs.io/github/main" "localhost" = false /\
  (URL.parse "https://content.tinajs.io/github/main"
     = inl (invalid_format "https://content.tinajs.io/github/main") \/
   (invalid_format "https://content.tinajs.io/github/main"
      = invalid_format "https://content.tinajs.io/github/main" /\
    exists params, URL.parse "https://content.tinajs.io/github/main" = inr params /\
                   URL.host params = TINA_HOST)).
Proof.
  apply (parseURL_throws_only_parse_and_format_errors URL.parse
           "https://content.tinajs.io/github/main").
  reflexivity.
Defined.

(** X3.  A hosted URL is read back: for an input that does not contain
    [localhost], when the host is the hosted service's and the path is
    [/content/<client>/github/<branch>], with a non-empty client id made of
    the characters [a-zA-Z0-9-_~ %] and a non-empty branch on one line, which
    may contain [/], [parseURL] returns this client id and this branch.  (An
    input that contains [localhost], be it in the client id or in the branch,
    gives the local variant instead.) *)
Theorem parseURL_reads_back_client_and_branch :
  forall (new_URL : string -> exn + URL.t) (url : string) (params : URL.t)
         (client branch_ : string),
    includes url "localhost" = false ->
    new_URL url = inr params ->
    URL.host params = TINA_HOST ->
    URL.pathname params = "/content/" ++ client ++ "/github/" ++ branch_ ->
    String.eqb client "" = false ->
    forallb_string UrlPattern.segmentValueChar client = true ->
    String.eqb branch_ "" = false ->
    forallb_string UrlPattern.dot branch_ = true ->
    parseURL new_URL url = inr (hosted_connection client branch_).
Proof.
  intros new_URL url params client branch_ Hl Hp Hh Hpath Hc Hcs Hb Hbs.
  unfold parseURL. rewrite Hl, Hp, hosted_pattern. cbv beta iota zeta.
  rewrite Hh, String.eqb_refl, Hpath, (match_hosted_path client branch_ Hc Hcs Hbs).
  cbn [negb UrlPattern.prop String.eqb Ascii.eqb Bool.eqb andb].
  destruct client as [|c0 client]; [discriminate Hc|].
  destruct branch_ as [|b0 branch_]; [discriminate Hb|].
  reflexivity.
Qed.

Lemma parseURL_reads_back_client_and_branch_witness :
  parseURL URL.parse "https://content.tinajs.io/content/my-site_1/github/feat/new-page"
  = inr (hosted_connection "my-site_1" "feat/new-page").
Proof.
  apply (parseURL_reads_back_client_and_branch URL.parse _
           {| URL.protocol := "https:"; URL.host := "content.tinajs.io";
              URL.pathname := "/content/my-site_1/github/feat/new-page" |});
    reflexivity.
Defined.

(** X4.  For an input that does not contain [localhost], on the hosted
    service's host, a path that names the client but no branch,
    [/content/<client>/github/], is a format error, for every such client id:
    the match succeeds with an empty branch, which is refused.  (An input
    that contains [localhost] gives the local variant instead.) *)
Theorem parseURL_refuses_an_empty_branch :
  forall (new_URL : string -> exn + URL.t) (url : string) (params : URL.t)
         (client : string),
    includes url "localhost" = false ->
    new_URL url = inr params ->
    URL.host params = TINA_HOST ->
    URL.pathname params = "/content/" ++ client ++ "/github/" ->
    String.eqb client "" = false ->
    forallb_string UrlPattern.segmentValueChar client = true ->
    UrlPattern.match_
      [UrlPattern.Static "/content/"; UrlPattern.Named "clientId";
       UrlPattern.Static "/github/"; UrlPattern.Wildcard]
      (URL.pathname params) = Some [("clientId", client); ("_", "")] /\
    parseURL new_URL url = inl (invalid_format url).
Proof.
  intros new_URL url params client Hl Hp Hh Hpath Hc Hcs.
  assert (M : UrlPattern.match_
                [UrlPattern.Static "/content/"; UrlPattern.Named "clientId";
                 UrlPattern.Static "/github/"; UrlPattern.Wildcard]
                (URL.pathname params) = Some [("clientId", client); ("_", "")]).
  { rewrite Hpath. exact (match_hosted_path client "" Hc Hcs eq_refl). }
  split; [exact M|].
  unfold parseURL. rewrite Hl, Hp, hosted_pattern. cbv beta iota zeta.
  rewrite Hh, String.eqb_refl, M. reflexivity.
Qed.

Lemma parseURL_refuses_an_empty_branch_witness :
  parseURL URL.parse "https://content.tinajs.io/content/abc123/github/"
  = inl (invalid_format "https://content.tinajs.io/content/abc123/github/").
Proof.
  apply (parseURL_refuses_an_empty_branch URL.parse _
           {| URL.protocol := "https:"; URL.host := "content.tinajs.io";
              URL.pathname := "/content/abc123/github/" |} "abc123");
    reflexivity.
Defined.

(** ** The query-DSL bridge, continued *)

Lemma nth_error_replace_same (r : Fauna.Ref) (d d' : Fauna.Document) (c : Fauna.Collection) :
  nth_error c r = Some d -> nth_error (Fauna.replace_at r d' c) r = Some d'.
Proof.
  revert r. induction c as [|x c IH]; intros [|r] H; simpl in *; try discriminate H; auto.
Qed.

Lemma nth_error_replace_other (r r' : Fauna.Ref) (d' : Fauna.Document) (c : Fauna.Collection) :
  r' <> r -> nth_error (Fauna.replace_at r d' c) r' = nth_error c r'.
Proof.
  revert r r'. induction c as [|x c IH]; intros r r' H; destruct r, r'; simpl;
    try reflexivity; try (now elim H).
  apply IH. lia.
Qed.

Lemma replace_at_twice (r : Fauna.Ref) (d1 d2 : Fauna.Document) (c : Fauna.Collection) :
  Fauna.replace_at r d2 (Fauna.replace_at r d1 c) = Fauna.replace_at r d2 c.
Proof.
  revert r. induction c as [|x c IH]; intros [|r]; simpl; auto. now rewrite IH.
Qed.

Lemma replace_at_last (d1 d2 : Fauna.Document) (c : Fauna.Collection) :
  Fauna.replace_at (length c) d2 (c ++ [d1])%list = (c ++ [d2])%list.
Proof. induction c as [|x c IH]; simpl; [reflexivity | now rewrite IH]. Qed.

Lemma replace_at_names (r : Fauna.Ref) (d d' : Fauna.Document) (c : Fauna.Collection) :
  nth_error c r = Some d ->
  Fauna.filename d' = Fauna.filename d ->
  map Fauna.filename (Fauna.replace_at r d' c) = map Fauna.filename c.
Proof.
  revert r. induction c as [|x c IH]; intros [|r] H E; simpl in *; try discriminate H.
  - injection H as ->. now rewrite E.
  - now rewrite (IH r H E).
Qed.

(** Replacing a document by one on which the test agrees leaves the index as
    it is. *)
Lemma refs_where_replace (p : Fauna.Document -> bool) (r : Fauna.Ref)
  (d d' : Fauna.Document) (c : Fauna.Collection) :
  nth_error c r = Some d -> p d' = p d ->
  Fauna.refs_where p (Fauna.replace_at r d' c) = Fauna.refs_where p c.
Proof.
  revert r. induction c as [|x c IH]; intros [|r] H E; simpl in *; try discriminate H.
  - injection H as ->. now rewrite !refs_where_cons, E.
  - now rewrite !refs_where_cons, (IH r H E).
Qed.

Lemma refs_where_present (p : Fauna.Document -> bool) (c : Fauna.Collection)
  (r : Fauna.Ref) (rest : list Fauna.Ref) :
  Fauna.refs_where p c = r :: rest -> existsb p c = true.
Proof.
  intros H. destruct (refs_where_head p c r rest H) as [[d [Hn Hp]] _].
  apply existsb_exists. exists d. split; [exact (nth_error_In c r Hn) | exact Hp].
Qed.

Lemma refs_where_In (p : Fauna.Document -> bool) (c : Fauna.Collection) (r : Fauna.Ref) :
  In r (Fauna.refs_where p c) -> exists d, nth_error c r = Some d /\ p d = true.
Proof.
  unfold Fauna.refs_where. intros H. apply filter_In in H. destruct H as [_ H].
  destruct (nth_error c r) as [d|]; [now exists d | discriminate H].
Qed.

(** What the query of [put] does to the collection. *)
Lemma put_query_run (p v : string) (c : Fauna.Collection) :
  exists inst, QueryDSL.put_query p v c = (inr inst, stored p v c).
Proof.
  unfold QueryDSL.put_query, Fauna.Match_page_by_filename, bind, stored.
  destruct (Fauna.refs_where (fun d => String.eqb (Fauna.filename d) p) c)
    as [|r rest] eqn:E.
  - simpl. unfold Fauna.Create. eexists. reflexivity.
  - destruct (refs_where_head _ c r rest E) as [[d [Hd _]] _].
    simpl. unfold Fauna.Get. rewrite Hd. cbn [Fauna.ref]. unfold Fauna.Update. rewrite Hd.
    eexists. reflexivity.
Qed.

Lemma query_dsl_put_run (p v : string) (w : Fauna.Client) :
  QueryDSL.put p v w
  = if delivered w
    then (inr VUndefined, with_backend (after_trip w) (stored p v (backend w)))
    else (inl (match hd_error (pending w) with
               | Some (Fauna.Failed e) => e
               | _ => Fauna.NotFound
               end),
          after_trip w).
Proof.
  unfold QueryDSL.put, bind. destruct (delivered w) eqn:D.
  - rewrite (query_delivered _ w D).
    destruct (put_query_run p v (backend w)) as [inst ->]. reflexivity.
  - unfold delivered in D. unfold Fauna.query, next_trip, after_trip.
    destruct (pending w) as [|[|e] rest]; try discriminate D. reflexivity.
Qed.

Lemma stored_names (p v : string) (c : Fauna.Collection) :
  map Fauna.filename (stored p v c)
  = if absent p c then (map Fauna.filename c ++ [p])%list else map Fauna.filename c.
Proof.
  unfold stored, absent.
  destruct (Fauna.refs_where (fun d => String.eqb (Fauna.filename d) p) c)
    as [|r rest] eqn:E.
  - destruct (existsb _ c) eqn:X.
    + apply existsb_exists in X. destruct X as [d [Hin Hd]].
      apply In_nth_error in Hin. destruct Hin as [n Hn].
      assert (Hr : In n (Fauna.refs_where (fun d => String.eqb (Fauna.filename d) p) c)).
      { unfold Fauna.refs_where. apply filter_In. split.
        - apply in_seq. split; [lia|]. simpl. apply nth_error_Some. now rewrite Hn.
        - now rewrite Hn. }
      rewrite E in Hr. contradiction Hr.
    + simpl. now rewrite map_app.
  - rewrite (refs_where_present _ c r rest E). simpl.
    destruct (refs_where_head _ c r rest E) as [[d [Hd Hp]] _].
    apply String.eqb_eq in Hp. apply (replace_at_names r d _ c Hd). now rewrite Hp.
Qed.

Lemma stored_twice (p v1 v2 : string) (c : Fauna.Collection) :
  stored p v2 (stored p v1 c) = stored p v2 c.
Proof.
  unfold stored at 2 3.
  destruct (Fauna.refs_where (fun d => String.eqb (Fauna.filename d) p) c)
    as [|r rest] eqn:E.
  - unfold stored. rewrite refs_where_snoc, E. cbn [Fauna.filename].
    rewrite String.eqb_refl. simpl. apply replace_at_last.
  - destruct (refs_where_head _ c r rest E) as [[d [Hd Hp]] _].
    unfold stored.
    rewrite (refs_where_replace _ r d _ c Hd), E.
    + apply replace_at_twice.
    + cbn [Fauna.filename]. now rewrite String.eqb_refl, Hp.
Qed.


Lemma get_query_answer (q : string) (c : Fauna.Collection) :
  QueryDSL.get_query q c = (answer q c, c).
Proof.
  unfold QueryDSL.get_query, Fauna.Match_page_by_filename, bind, answer.
  destruct (Fauna.refs_where _ c) as [|r rest]; [reflexivity|].
  simpl. unfold Fauna.Get. destruct (nth_error c r); reflexivity.
Qed.

Lemma query_dsl_get_run (q : string) (w : Fauna.Client) :
  delivered w = true ->
  QueryDSL.get q w
  = (match answer q (backend w) with
     | inr v => inr v
     | inl e =>
         inl (if instanceof_Error e
              then GraphQLError QueryDSL.unauthorized_message (Some e) (message_of e)
              else GraphQLError QueryDSL.unknown_message None "")
     end,
     after_trip w).
Proof.
  intros D. unfold QueryDSL.get, try_catch, bind.
  rewrite (query_delivered _ w D), get_query_answer.
  destruct (answer q (backend w)) as [e|v] eqn:A.
  - destruct (instanceof_Error e); reflexivity.
  - unfold answer in A. destruct (Fauna.refs_where _ _) as [|r rest]; [discriminate A|].
    destruct (nth_error _ r); [|discriminate A]. injection A as <-. reflexivity.
Qed.

Lemma answer_stored (p v : string) (c : Fauna.Collection) :
  answer p (stored p v c) = inr (VStr v).
Proof.
  destruct (put_query_stores p v c) as (inst & c' & r & rest & Hp & Hr & Hn).
  destruct (put_query_run p v c) as [inst' Hp']. rewrite Hp in Hp'.
  injection Hp' as _ <-. unfold answer. rewrite Hr, Hn. reflexivity.
Qed.

Lemma answer_stored_other (p q v : string) (c : Fauna.Collection) :
  String.eqb p q = false -> answer q (stored p v c) = answer q c.
Proof.
  intros Hpq. unfold stored.
  destruct (Fauna.refs_where (fun d => String.eqb (Fauna.filename d) p) c)
    as [|r rest] eqn:E.
  - unfold answer. rewrite refs_where_snoc. cbn [Fauna.filename]. rewrite Hpq, app_nil_r.
    destruct (Fauna.refs_where (fun d => String.eqb (Fauna.filename d) q) c)
      as [|r' rest'] eqn:E'; [reflexivity|].
    destruct (refs_where_head _ c r' rest' E') as [[d [Hd _]] _].
    rewrite nth_error_app1, Hd; [reflexivity|].
    apply nth_error_Some. now rewrite Hd.
  - destruct (refs_where_head _ c r rest E) as [[d [Hd Hp]] _].
    apply String.eqb_eq in Hp. unfold answer.
    rewrite (refs_where_replace _ r d _ c Hd)
      by (cbn [Fauna.filename]; now rewrite Hp).
    destruct (Fauna.refs_where (fun d => String.eqb (Fauna.filename d) q) c)
      as [|r' rest'] eqn:E'; [reflexivity|].
    destruct (refs_where_head _ c r' rest' E') as [[d' [Hd' Hq]] _].
    rewrite nth_error_replace_other; [reflexivity|].
    intros ->. rewrite Hd in Hd'. injection Hd' as <-.
    rewrite Hp, Hpq in Hq. discriminate Hq.
Qed.

(** X5.  In the query-DSL bridge, when both queries reach the database,
    [put(p, v)] followed by [get(p)] returns [v], whatever the collection held
    before, and leaves the collection [put] wrote. *)
Theorem query_dsl_put_then_get :
  forall (p v : string) (w : Fauna.Client),
    delivered w = true ->
    delivered (after_trip w) = true ->
    (QueryDSL.put p v ;;; QueryDSL.get p) w
    = (inr (VStr v), with_backend (after_trip (after_trip w)) (stored p v (backend w))).
Proof.
  intros p v w D1 D2. unfold bind at 1. rewrite query_dsl_put_run, D1. cbv beta iota.
  rewrite (query_dsl_get_run p (with_backend (after_trip w) (stored p v (backend w))) D2).
  cbn [backend with_backend]. rewrite answer_stored. reflexivity.
Qed.

Lemma query_dsl_put_then_get_witness :
  (QueryDSL.put "posts/a.md" "new" ;;; QueryDSL.get "posts/a.md")
    (mkWorld [ {| Fauna.filename := "posts/a.md"; Fauna.page := "old" |};
               {| Fauna.filename := "posts/a.md"; Fauna.page := "stale" |} ] [] 0)
  = (inr (VStr "new"),
     mkWorld [ {| Fauna.filename := "posts/a.md"; Fauna.page := "new" |};
               {| Fauna.filename := "posts/a.md"; Fauna.page := "stale" |} ] [] 2).
Proof.
  apply (query_dsl_put_then_get "posts/a.md" "new"
           (mkWorld [ {| Fauna.filename := "posts/a.md"; Fauna.page := "old" |};
                      {| Fauna.filename := "posts/a.md"; Fauna.page := "stale" |} ] [] 0));
    reflexivity.
Defined.

(** X6.  [put(p, v)] of the query-DSL bridge keeps the stored paths in their
    order and adds [p] at the end exactly when the query reaches the database
    and no document is filed under [p]; hence it never files a second
    document under a path: file names that were distinct stay distinct. *)
Theorem query_dsl_put_keeps_paths_unique :
  forall (p v : string) (w : Fauna.Client),
    map Fauna.filename (backend (snd (QueryDSL.put p v w)))
    = (if delivered w && absent p (backend w)
       then (map Fauna.filename (backend w) ++ [p])%list
       else map Fauna.filename (backend w)) /\
    (NoDup (map Fauna.filename (backend w)) ->
     NoDup (map Fauna.filename (backend (snd (QueryDSL.put p v w))))).
Proof.
  intros p v w.
  assert (E : map Fauna.filename (backend (snd (QueryDSL.put p v w)))
              = if delivered w && absent p (backend w)
                then (map Fauna.filename (backend w) ++ [p])%list
                else map Fauna.filename (backend w)).
  { rewrite query_dsl_put_run. destruct (delivered w); [|reflexivity].
    cbn [snd backend with_backend andb]. apply stored_names. }
  split; [exact E|]. intros N. rewrite E.
  destruct (delivered w); [|exact N]. cbn [andb].
  destruct (absent p (backend w)) eqn:A; [|exact N].
  apply NoDup_app; [exact N | constructor; [intros [] | constructor] |].
  intros x Hx [E'|[]]. subst x. unfold absent in A. apply negb_true_iff in A.
  apply in_map_iff in Hx. destruct Hx as [d [Hd Hin]].
  assert (X : existsb (fun d => String.eqb (Fauna.filename d) p) (backend w) = true).
  { apply existsb_exists. exists d. split; [exact Hin | now apply String.eqb_eq]. }
  rewrite X in A. discriminate A.
Qed.

Lemma query_dsl_put_keeps_paths_unique_witness :
  NoDup (map Fauna.filename
           (backend (snd (QueryDSL.put "posts/b.md" "B"
              (mkWorld [ {| Fauna.filename := "posts/a.md"; Fauna.page := "A" |} ] [] 0))))).
Proof.
  apply (proj2 (query_dsl_put_keeps_paths_unique "posts/b.md" "B"
                  (mkWorld [ {| Fauna.filename := "posts/a.md"; Fauna.page := "A" |} ] [] 0))).
  simpl. constructor; [intros [] | constructor].
Defined.

(** X7.  The last write wins: in the query-DSL bridge two writes of the same
    path that reach the database leave the collection the second alone would
    leave, so that writing the same payload twice is writing it once. *)
Theorem query_dsl_last_write_wins :
  forall (p v1 v2 : string) (w : Fauna.Client),
    delivered w = true ->
    delivered (after_trip w) = true ->
    backend (snd ((QueryDSL.put p v1 ;;; QueryDSL.put p v2) w))
    = backend (snd (QueryDSL.put p v2 w)).
Proof.
  intros p v1 v2 w D1 D2. unfold bind.
  rewrite (query_dsl_put_run p v1 w), (query_dsl_put_run p v2 w), D1. cbv beta iota.
  rewrite (query_dsl_put_run p v2 (with_backend (after_trip w) (stored p v1 (backend w)))).
  assert (D : delivered (with_backend (after_trip w) (stored p v1 (backend w))) = true)
    by exact D2.
  rewrite D. cbn [snd backend with_backend]. apply stored_twice.
Qed.

Lemma query_dsl_last_write_wins_witness :
  backend (snd ((QueryDSL.put "posts/a.md" "one" ;;; QueryDSL.put "posts/a.md" "two")
                  (mkWorld [] [] 0)))
  = backend (snd (QueryDSL.put "posts/a.md" "two" (mkWorld [] [] 0))).
Proof.
  apply (query_dsl_last_write_wins "posts/a.md" "one" "two" (mkWorld [] [] 0));
    reflexivity.
Defined.

(** X8.  A write does not disturb the other paths: in the query-DSL bridge,
    for [q] different from [p], [get(q)] after [put(p, v)] returns, or throws,
    what [get(q)] alone does. *)
Theorem query_dsl_put_leaves_other_paths :
  forall (p q v : string) (w : Fauna.Client),
    String.eqb p q = false ->
    delivered w = true ->
    delivered (after_trip w) = true ->
    fst ((QueryDSL.put p v ;;; QueryDSL.get q) w) = fst (QueryDSL.get q w).
Proof.
  intros p q v w Hpq D1 D2. unfold bind at 1. rewrite query_dsl_put_run, D1. cbv beta iota.
  rewrite (query_dsl_get_run q (with_backend (after_trip w) (stored p v (backend w))) D2).
  rewrite (query_dsl_get_run q w D1).
  cbn [backend with_backend fst]. now rewrite answer_stored_other.
Qed.

Lemma query_dsl_put_leaves_other_paths_witness :
  fst ((QueryDSL.put "posts/b.md" "B" ;;; QueryDSL.get "posts/a.md")
         (mkWorld [ {| Fauna.filename := "posts/a.md"; Fauna.page := "A" |} ] [] 0))
  = fst (QueryDSL.get "posts/a.md"
           (mkWorld [ {| Fauna.filename := "posts/a.md"; Fauna.page := "A" |} ] [] 0)).
Proof.
  apply (query_dsl_put_leaves_other_paths "posts/b.md" "posts/a.md" "B"
           (mkWorld [ {| Fauna.filename := "posts/a.md"; Fauna.page := "A" |} ] [] 0));
    reflexivity.
Defined.

Lemma Filter_reads {A : Type} (set : list A) (test : A -> Fauna.Query bool) :
  (forall x c, snd (test x c) = c) -> forall c, snd (Fauna.Filter set test c) = c.
Proof.
  intros H. induction set as [|x set IH]; intros c; [reflexivity|].
  simpl. unfold bind. specialize (H x c).
  destruct (test x c) as [[e|b] c1]; simpl in H; subst c1; [reflexivity|].
  specialize (IH c). destruct (Fauna.Filter set test c) as [[e|l] c2]; simpl in IH; subst c2;
    reflexivity.
Qed.

Lemma Map_reads {A B : Type} (l : list A) (f : A -> Fauna.Query B) :
  (forall x c, snd (f x c) = c) -> forall c, snd (Fauna.Map l f c) = c.
Proof.
  intros H. induction l as [|x l IH]; intros c; [reflexivity|].
  simpl. unfold bind. specialize (H x c).
  destruct (f x c) as [[e|b] c1]; simpl in H; subst c1; [reflexivity|].
  specialize (IH c). destruct (Fauna.Map l f c) as [[e|l'] c2]; simpl in IH; subst c2;
    reflexivity.
Qed.

Lemma readDir_query_reads (q : string) (c : Fauna.Collection) :
  snd (QueryDSL.readDir_query q c) = c.
Proof.
  unfold QueryDSL.readDir_query, bind at 1, Fauna.Documents. unfold bind at 1.
  pose proof (Filter_reads (seq 0 (length c))
    (fun doc => d <- Fauna.Get doc ;;
                found <- lift (Fauna.FindStrRegex (Fauna.filename (Fauna.doc d)) ("^" ++ q)) ;;
                ret (Nat.ltb 0 (length found)))) as F.
  match type of F with ?P -> _ => assert (HP : P) end.
  { intros x c0. unfold bind, Fauna.Get, lift, ret.
    destruct (nth_error c0 x); [|reflexivity].
    destruct (Fauna.FindStrRegex _ _); reflexivity. }
  specialize (F HP c).
  destruct (Fauna.Filter _ _ c) as [[e|matching_] c1]; simpl in F; subst c1; [reflexivity|].
  unfold bind at 1.
  pose proof (Map_reads (Fauna.Paginate matching_ QueryDSL.page_size)
    (fun docref => d <- Fauna.Get docref ;; ret (Fauna.filename (Fauna.doc d)))) as G.
  match type of G with ?P -> _ => assert (HQ : P) end.
  { intros x c0. unfold bind, Fauna.Get, ret. destruct (nth_error c0 x); reflexivity. }
  specialize (G HQ c).
  destruct (Fauna.Map _ _ c) as [[e|names_] c2]; simpl in G; subst c2; reflexivity.
Qed.

Lemma query_reads {A : Type} (expr : Fauna.Query A) (w : Fauna.Client) :
  (forall c, snd (expr c) = c) -> backend (snd (Fauna.query expr w)) = backend w.
Proof.
  intros H. unfold Fauna.query, next_trip.
  destruct (hd_error (pending w)) as [[|e]|]; simpl; try reflexivity;
    specialize (H (backend w)); destruct (expr (backend w)) as [[e'|a] c']; simpl in *;
    subst; reflexivity.
Qed.

(** X9.  Reading writes nothing: in the query-DSL bridge [get] and [glob]
    leave the collection as it is, for every path or pattern and whether they
    return or throw. *)
Theorem query_dsl_reads_leave_the_collection :
  forall (p : string) (w : Fauna.Client),
    backend (snd (QueryDSL.get p w)) = backend w /\
    backend (snd (QueryDSL.glob p w)) = backend w.
Proof.
  intros p w. split.
  - unfold QueryDSL.get, try_catch, bind.
    pose proof (query_reads (QueryDSL.get_query p) w
                  (fun c => f_equal snd (get_query_answer p c))) as Q.
    destruct (Fauna.query (QueryDSL.get_query p) w) as [[e|v] w']; simpl in *.
    + destruct (instanceof_Error e); exact Q.
    + destruct (defined v); exact Q.
  - unfold QueryDSL.glob, QueryDSL.readDir, bind.
    pose proof (query_reads (QueryDSL.readDir_query p) w (readDir_query_reads p)) as Q.
    destruct (Fauna.query (QueryDSL.readDir_query p) w) as [[e|page_] w']; simpl in *;
      [exact Q|].
    destruct (Fauna.data page_); exact Q.
Qed.

(** ** The REST bridges, continued *)

(** X10.  The REST revision of the graphql bridge sends the same request
    whatever it is asked: for every server, [glob] does and returns the same
    for all patterns, and [delete] for all paths, since the body of either is
    [{ filepath }.toString()]. *)
Theorem rest_graphql_glob_and_delete_ignore_their_argument :
  forall (Store : Type) (server : Http.Request -> Store -> Http.Response * Store)
         (domain : string) (w : Http.Net Store) (p q : string),
    RestGraphql.glob Store server domain p w = RestGraphql.glob Store server domain q w /\
    RestGraphql.delete Store server domain p w = RestGraphql.delete Store server domain q w.
Proof. intros. split; reflexivity. Qed.

(** X11.  What [glob] of the datalayer bridge makes of a response that is
    [ok]: the [data] of its JSON body, as it is and whatever it is; the empty
    list when the body is an object without [data], or JSON that is no object;
    a [TypeError] when the body is [null]; the [SyntaxError] of [json()] when
    the body is not JSON. *)
Theorem rest_datalayer_glob_of_an_ok_response :
  forall (Store : Type) (server : Http.Request -> Store -> Http.Response * Store)
         (domain q : string) (st : Store) (r : Http.Response) (rest : list Http.fate)
         (n : nat),
    Http.ok r = true ->
    fst (RestDatalayer.glob Store server domain q (mkWorld st (Http.Answer r :: rest) n))
    = match Http.payload r with
      | None => inl (Error "SyntaxError" "Unexpected end of JSON input")
      | Some VNull =>
          inl (Error "TypeError" "Cannot read properties of null (reading 'data')")
      | Some VUndefined =>
          inl (Error "TypeError" "Cannot read properties of undefined (reading 'data')")
      | Some (VObj fields) =>
          inr (match field "data" fields with
               | VUndefined => VArr []
               | data => data
               end)
      | Some _ => inr (VArr [])
      end.
Proof.
  intros Store server domain q st r rest n Hok.
  unfold RestDatalayer.glob, RestDatalayer.readDir, bind, Http.fetch, next_trip; simpl.
  rewrite Hok. unfold Http.json.
  destruct (Http.payload r) as [[| |b|k|t|l|fields]|]; try reflexivity.
  unfold ret, lift, dot_data. destruct (field "data" fields); reflexivity.
Qed.

Lemma rest_datalayer_glob_of_an_ok_response_witness :
  fst (RestDatalayer.glob Backend.Store example_server example_endpoint "posts/"
         (mkWorld [] [Http.Answer {| Http.status := 200;
                                     Http.payload := Some (VObj [("data", VNum 7)]) |}] 0))
  = inr (VNum 7).
Proof.
  apply (rest_datalayer_glob_of_an_ok_response Backend.Store example_server
           example_endpoint "posts/" []
           {| Http.status := 200; Http.payload := Some (VObj [("data", VNum 7)]) |} [] 0).
  reflexivity.
Defined.

Lemma split_not_nil (sep : ascii) (s : string) : Http.split sep s <> [].
Proof.
  destruct s as [|c r]; simpl; [discriminate|].
  destruct (Ascii.eqb c sep); [discriminate|].
  destruct (Http.split sep r); discriminate.
Qed.

Lemma split_append (sep : ascii) (a b : string) :
  Http.split sep (a ++ String sep b) = (Http.split sep a ++ Http.split sep b)%list.
Proof.
  induction a as [|c a IH]; simpl.
  - now rewrite Ascii.eqb_refl.
  - destruct (Ascii.eqb c sep); rewrite IH; [reflexivity|].
    destruct (Http.split sep a) as [|piece pieces] eqn:E; [|reflexivity].
    now elim (split_not_nil sep a).
Qed.

Lemma split_no_separator (sep : ascii) (s : string) :
  forallb_string (fun c => negb (Ascii.eqb c sep)) s = true -> Http.split sep s = [s].
Proof.
  induction s as [|c s IH]; simpl; intros H; [reflexivity|].
  apply andb_true_iff in H. destruct H as [Hc Hs]. apply negb_true_iff in Hc.
  now rewrite Hc, (IH Hs).
Qed.

Lemma concat_cons_char (sep : string) (c : ascii) (piece : string) (pieces : list string) :
  String.concat sep (String c piece :: pieces) = String c (String.concat sep (piece :: pieces)).
Proof. destruct pieces; reflexivity. Qed.

(** [join] undoes [split]. *)
Lemma concat_split (s : string) : String.concat "/" (Http.split "/" s) = s.
Proof.
  induction s as [|c s IH]; [reflexivity|].
  simpl Http.split. destruct (Ascii.eqb c "/") eqn:E.
  - apply Ascii.eqb_eq in E. subst c.
    destruct (Http.split "/" s) as [|piece pieces] eqn:S; [now elim (split_not_nil "/" s)|].
    change (String.concat "/" ("" :: piece :: pieces))
      with ("" ++ "/" ++ String.concat "/" (piece :: pieces)).
    now rewrite IH.
  - destruct (Http.split "/" s) as [|piece pieces] eqn:S; [now elim (split_not_nil "/" s)|].
    now rewrite concat_cons_char, IH.
Qed.

(** X12.  The [path] that [put] of the graphql REST bridge computes from the
    file path is its directory: what precedes the last [/], and the empty
    string for a file path without [/]. *)
Theorem parent_path_is_the_directory :
  (forall dir base : string,
      forallb_string (fun c => negb (Ascii.eqb c "/")) base = true ->
      parent_path (dir ++ "/" ++ base) = dir) /\
  (forall base : string,
      forallb_string (fun c => negb (Ascii.eqb c "/")) base = true ->
      parent_path base = "").
Proof.
  split.
  - intros dir base H. unfold parent_path.
    change (dir ++ "/" ++ base) with (dir ++ String "/" base).
    rewrite split_append, (split_no_separator "/" base H), removelast_last.
    apply concat_split.
  - intros base H. unfold parent_path. now rewrite (split_no_separator "/" base H).
Qed.

Lemma parent_path_is_the_directory_witness :
  parent_path "content/posts/hello.md" = "content/posts" /\ parent_path "hello.md" = "".
Proof.
  split.
  - apply (proj1 parent_path_is_the_directory "content/posts" "hello.md"). reflexivity.
  - apply (proj2 parent_path_is_the_directory "hello.md"). reflexivity.
Defined.

(** ** [TinaCMSProvider2] *)

(** X13.  [TinaCMSProvider2] never throws for want of an API URL: the test
    that guards this error reads [new Boolean(...)] objects, which are truthy.
    It throws only what [parseURL] throws on [props.apiURL], or the error that
    asks for the schema; with a schema and nothing else it goes on with an
    undefined branch, client id and local flag. *)
Theorem provider_never_asks_for_an_api_url :
  forall (new_URL : string -> exn + URL.t) (Schema : Type),
    (forall (props : ProviderProps.t Schema) (e : exn),
        TinaCMSProvider2 new_URL Schema props = inl e ->
        e = schema_required \/
        exists url, ProviderProps.apiURL props = Some url /\ parseURL new_URL url = inl e) /\
    (forall s : Schema,
        TinaCMSProvider2 new_URL Schema
          {| ProviderProps.client_apiUrl := None; ProviderProps.apiURL := None;
             ProviderProps.isLocalClient := None; ProviderProps.branch := None;
             ProviderProps.clientId := None; ProviderProps.isFaunaClient := None;
             ProviderProps.faunaContentUrl := None; ProviderProps.schema := Some s |}
        = inr {| CloudProps.branch := None; CloudProps.clientId := None;
                 CloudProps.isLocalClient := None; CloudProps.isFaunaClient := false;
                 CloudProps.faunaContentUrl := None; CloudProps.schema := s |}).
Proof.
  intros new_URL Schema. split; [|reflexivity].
  intros props e H. unfold TinaCMSProvider2 in H.
  unfold truthy_object, or_object in H. rewrite andb_false_r in H.
  destruct (truthy (ProviderProps.apiURL props)) eqn:T.
  - destruct (ProviderProps.apiURL props) as [url|] eqn:U; [|discriminate T].
    destruct (parseURL new_URL url) as [e'|c] eqn:P.
    + injection H as <-. right. now exists url.
    + destruct (ProviderProps.schema props); [discriminate H|].
      injection H as <-. now left.
  - destruct (ProviderProps.schema props); [discriminate H|].
    injection H as <-. now left.
Qed.

Lemma provider_never_asks_for_an_api_url_witness :
  Error "TypeError" "Invalid URL" = schema_required \/
  exists url,
    ProviderProps.apiURL
      {| ProviderProps.client_apiUrl := None; ProviderProps.apiURL := Some "tina.io";
         ProviderProps.isLocalClient := None; ProviderProps.branch := None;
         ProviderProps.clientId := None; ProviderProps.isFaunaClient := None;
         ProviderProps.faunaContentUrl := None; ProviderProps.schema := Some tt |}
    = Some url /\
    parseURL URL.parse url = inl (Error "TypeError" "Invalid URL").
Proof.
  apply (proj1 (provider_never_asks_for_an_api_url URL.parse unit)). reflexivity.
Defined.

(** X14.  Which properties decide the connection.  With a non-empty
    [apiURL], the connection is the one [parseURL] reads from it, and the
    deprecated [branch], [clientId] and [isLocalClient] are not looked at.
    Without it, these three are passed on as they are and the Fauna client is
    never selected: [isFaunaClient] is [false] and [faunaContentUrl] is [null]
    whatever the properties of these names and whatever [client.apiUrl] is. *)
Theorem provider_connection_source :
  forall (new_URL : string -> exn + URL.t) (Schema : Type)
         (props : ProviderProps.t Schema) (s : Schema),
    ProviderProps.schema props = Some s ->
    (forall url c,
        ProviderProps.apiURL props = Some url ->
        String.eqb url "" = false ->
        parseURL new_URL url = inr c ->
        TinaCMSProvider2 new_URL Schema props
        = inr {| CloudProps.branch := branch c; CloudProps.clientId := clientId c;
                 CloudProps.isLocalClient := Some (isLocalClient c);
                 CloudProps.isFaunaClient := isFaunaClient c;
                 CloudProps.faunaContentUrl := faunaContentUrl c;
                 CloudProps.schema := s |}) /\
    (truthy (ProviderProps.apiURL props) = false ->
     TinaCMSProvider2 new_URL Schema props
     = inr {| CloudProps.branch := ProviderProps.branch props;
              CloudProps.clientId := ProviderProps.clientId props;
              CloudProps.isLocalClient := ProviderProps.isLocalClient props;
              CloudProps.isFaunaClient := false;
              CloudProps.faunaContentUrl := None;
              CloudProps.schema := s |}).
Proof.
  intros new_URL Schema props s Hs. unfold TinaCMSProvider2.
  unfold truthy_object, or_object. rewrite andb_false_r. split.
  - intros url c Hu Hne Hp. rewrite Hu. destruct url as [|a url]; [discriminate Hne|].
    cbn [truthy]. rewrite Hp, Hs. reflexivity.
  - intros T. rewrite T, Hs. reflexivity.
Qed.

Lemma provider_connection_source_witness :
  TinaCMSProvider2 URL.parse unit
    {| ProviderProps.client_apiUrl := Some "https://db.example/graphql";
       ProviderProps.apiURL := None;
       ProviderProps.isLocalClient := None; ProviderProps.branch := Some "main";
       ProviderProps.clientId := Some "abc123"; ProviderProps.isFaunaClient := Some true;
       ProviderProps.faunaContentUrl := Some "https://db.example/graphql";
       ProviderProps.schema := Some tt |}
  = inr {| CloudProps.branch := Some "main"; CloudProps.clientId := Some "abc123";
           CloudProps.isLocalClient := None; CloudProps.isFaunaClient := false;
           CloudProps.faunaContentUrl := None; CloudProps.schema := tt |} /\
  TinaCMSProvider2 URL.parse unit
    {| ProviderProps.client_apiUrl := None;
       ProviderProps.apiURL := Some "http://localhost:4001/graphql";
       ProviderProps.isLocalClient := Some false; ProviderProps.branch := Some "main";
       ProviderProps.clientId := Some "abc123"; ProviderProps.isFaunaClient := None;
       ProviderProps.faunaContentUrl := None; ProviderProps.schema := Some tt |}
  = inr {| CloudProps.branch := None; CloudProps.clientId := None;
           CloudProps.isLocalClient := Some true; CloudProps.isFaunaClient := false;
           CloudProps.faunaContentUrl := None; CloudProps.schema := tt |}.
Proof.
  split.
  - apply (proj2 (provider_connection_source URL.parse unit
                    {| ProviderProps.client_apiUrl := Some "https://db.example/graphql";
                       ProviderProps.apiURL := None;
                       ProviderProps.isLocalClient := None;
                       ProviderProps.branch := Some "main";
                       ProviderProps.clientId := Some "abc123";
                       ProviderProps.isFaunaClient := Some true;
                       ProviderProps.faunaContentUrl := Some "https://db.example/graphql";
                       ProviderProps.schema := Some tt |} tt eq_refl)).
    reflexivity.
  - apply (proj1 (provider_connection_source URL.parse unit
                    {| ProviderProps.client_apiUrl := None;
                       ProviderProps.apiURL := Some "http://localhost:4001/graphql";
                       ProviderProps.isLocalClient := Some false;
                       ProviderProps.branch := Some "main";
                       ProviderProps.clientId := Some "abc123";
                       ProviderProps.isFaunaClient := None;
                       ProviderProps.faunaContentUrl := None;
                       ProviderProps.schema := Some tt |} tt eq_refl)
             "http://localhost:4001/graphql" local_connection); reflexivity.
Defined.

(** ** [gql] *)

Lemma gql_from (strings args : list string) (i : nat) (str : string) :
  snd (fold_left
         (fun (acc : nat * string) (string_ : string) =>
            let (i, str) := acc in
            (S i, str ++ string_ ++ or_empty (nth_error args i)))
         strings (i, str))
  = str ++ gql strings (skipn i args).
Proof.
  unfold gql. revert i str args.
  induction strings as [|s strings IH]; intros i str args.
  - simpl. now rewrite append_empty_r.
  - cbn [fold_left]. rewrite (IH (S i)), (IH 1 ("" ++ s ++ _)).
    cbn [append]. rewrite !append_assoc. do 2 f_equal.
    assert (N : nth_error (skipn i args) 0 = nth_error args i).
    { clear. revert args. induction i as [|i IHi]; intros args; [reflexivity|].
      destruct args as [|a args]; [reflexivity | apply IHi]. }
    rewrite N. do 2 f_equal.
    clear. revert args. induction i as [|i IHi]; intros args.
    + destruct args; reflexivity.
    + destruct args as [|a args]; [reflexivity | apply IHi].
Qed.

(** X15.  [gql] puts the template back together: each string is followed by
    the argument of its rank, if there is one; without arguments the result is
    the strings joined; and arguments beyond the strings are dropped. *)
Theorem gql_interleaves :
  (forall args : list string, gql [] args = "") /\
  (forall (s : string) (strings args : list string),
      gql (s :: strings) args = s ++ or_empty (hd_error args) ++ gql strings (tl args)) /\
  (forall strings : list string, gql strings [] = String.concat "" strings) /\
  (forall strings args extra : list string,
      length strings <= length args ->
      gql strings (args ++ extra) = gql strings args).
Proof.
  assert (Step : forall s strings args,
             gql (s :: strings) args = s ++ or_empty (hd_error args) ++ gql strings (tl args)).
  { intros s strings args. unfold gql at 1. cbn [fold_left]. rewrite gql_from.
    cbn [append]. rewrite append_assoc.
    destruct args as [|a args]; [|reflexivity].
    simpl. destruct strings; reflexivity. }
  split; [reflexivity|]. split; [exact Step|]. split.
  - induction strings as [|s strings IH]; [reflexivity|].
    rewrite Step. cbn [hd_error tl or_empty]. rewrite IH. simpl.
    destruct strings as [|s' strings']; [|reflexivity].
    simpl. now rewrite append_empty_r.
  - induction strings as [|s strings IH]; intros args extra H; [reflexivity|].
    destruct args as [|a args]; [simpl in H; lia|].
    rewrite !Step. simpl. rewrite IH; [reflexivity | simpl in H; lia].
Qed.

Lemma gql_interleaves_witness :
  gql ["query { post(id: "; ") { title } }"] ["1"; ""; "unused"]
  = gql ["query { post(id: "; ") { title } }"] ["1"; ""].
Proof.
  apply (proj2 (proj2 (proj2 gql_interleaves))
           ["query { post(id: "; ") { title } }"] ["1"; ""] ["unused"]).
  simpl. lia.
Defined.

(** ** Requests made while building a page *)

Lemma JSON_clone_element (v : value) :
  serialisable (match v with VUndefined => VNull | _ => JSON_clone v end) = true.
Proof.
  revert v. fix IH 1. intros [| |b|n|t|l|fields]; try reflexivity.
  - cbn [JSON_clone serialisable].
    induction l as [|x l IHl]; [reflexivity|].
    cbn [map forallb]. rewrite IHl, andb_true_r. apply IH.
  - cbn [JSON_clone serialisable].
    induction fields as [|[k x] fields IHf]; [reflexivity|].
    pose proof (IH x) as Hx.
    destruct x; try exact IHf; cbn [forallb snd]; cbn [forallb snd] in IHf;
      rewrite IHf, andb_true_r; exact Hx.
Qed.

Section RequestProperties.

Context {Remote : Type}.
Variable LocalClient_request : string -> value -> Remote -> (exn + value) * Remote.
Variable FaunaClient_request : string -> string -> value -> Remote -> (exn + value) * Remote.

(** X16.  [getStaticPropsForTina] never rejects.  It returns the object of
    [data], [query] and [variables] after a round trip through JSON, where
    [data] is what the local server answered, or the empty object when the
    request failed, whatever the failure; the object holds no [undefined] at
    any depth. *)
Theorem getStaticPropsForTina_never_rejects :
  forall (query : string) (variables : value) (w : Runtime Remote),
    fst (getStaticPropsForTina Remote LocalClient_request query variables w)
    = inr (JSON_clone
             (VObj [("data",
                     match fst (LocalClient_request query variables (remote w)) with
                     | inr data => data
                     | inl _ => VObj []
                     end);
                    ("query", VStr query);
                    ("variables", variables)])) /\
    (forall v,
        fst (getStaticPropsForTina Remote LocalClient_request query variables w) = inr v ->
        serialisable v = true).
Proof.
  intros query variables w.
  assert (E : fst (getStaticPropsForTina Remote LocalClient_request query variables w)
              = inr (JSON_clone
                       (VObj [("data",
                               match fst (LocalClient_request query variables (remote w)) with
                               | inr data => data
                               | inl _ => VObj []
                               end);
                              ("query", VStr query);
                              ("variables", variables)]))).
  { unfold getStaticPropsForTina, try_catch, bind, staticRequest, bind, warn_in_browser,
      on_remote, console_warn.
    destruct (negb (is_server Remote w)); cbn [remote];
      destruct (LocalClient_request query variables (remote w)) as [[e|data] s];
      reflexivity. }
  split; [exact E|]. intros v Hv. rewrite E in Hv.
  pose proof (JSON_clone_element
                (VObj [("data",
                        match fst (LocalClient_request query variables (remote w)) with
                        | inr data => data
                        | inl _ => VObj []
                        end);
                       ("query", VStr query);
                       ("variables", variables)])) as J.
  injection Hv as <-. exact J.
Qed.

(** X17.  [staticRequest] and [faunaRequest] return or throw what the
    client's [request] does and leave the server as it leaves it; they write
    the warning to the console exactly when [window] and [window.document]
    exist, and before the request is made, so also when it fails. *)
Theorem requests_forward_and_warn_in_the_browser :
  forall (query faunaUrl : string) (variables : value) (w : Runtime Remote),
    (fst (staticRequest Remote LocalClient_request query variables w)
       = fst (LocalClient_request query variables (remote w)) /\
     remote (snd (staticRequest Remote LocalClient_request query variables w))
       = snd (LocalClient_request query variables (remote w)) /\
     console (snd (staticRequest Remote LocalClient_request query variables w))
       = (console w ++ if has_window w && has_document w then [browser_warning] else [])%list)
    /\
    (fst (faunaRequest Remote FaunaClient_request query variables faunaUrl w)
       = fst (FaunaClient_request faunaUrl query variables (remote w)) /\
     remote (snd (faunaRequest Remote FaunaClient_request query variables faunaUrl w))
       = snd (FaunaClient_request faunaUrl query variables (remote w)) /\
     console (snd (faunaRequest Remote FaunaClient_request query variables faunaUrl w))
       = (console w ++ if has_window w && has_document w then [browser_warning] else [])%list).
Proof.
  intros query faunaUrl variables w.
  unfold staticRequest, faunaRequest, bind, warn_in_browser, on_remote, console_warn,
    is_server.
  rewrite negb_involutive.
  destruct (has_window w && has_document w); cbn [remote console];
    destruct (LocalClient_request query variables (remote w)) as [r1 s1];
    destruct (FaunaClient_request faunaUrl query variables (remote w)) as [r2 s2];
    cbn [fst snd remote console]; rewrite ?app_nil_r; repeat split; reflexivity.
Qed.

End RequestProperties.

(** A build during which the local server cannot be reached. *)
Lemma getStaticPropsForTina_never_rejects_witness :
  serialisable
    (JSON_clone
       (VObj [("data", VObj []); ("query", VStr "{ posts }"); ("variables", VUndefined)]))
  = true.
Proof.
  apply (proj2 (getStaticPropsForTina_never_rejects
                  (fun _ _ (s : unit) => (inl (Error "Error" "ECONNREFUSED"), s))
                  "{ posts }" VUndefined
                  {| has_window := false; has_document := false; console := [];
                     remote := tt |})).
  reflexivity.
Defined.


(** ** [ErrorBoundary] *)

(** X18.  The error screen and its Refresh button.  An error caught while no
    refresh is under way shows the error screen with the error's message, and
    offers the switch to the default branch exactly when a non-empty branch
    name is stored.  Once Refresh is clicked the boundary shows "Let's try that
    again." whatever errors are caught meanwhile; when the timer fires it
    renders its children again, those errors forgotten. *)
Theorem error_boundary_refresh_cycle :
  forall (st : ErrorBoundary.State) (branchData : option string),
    (forall m : string,
        ErrorBoundary.pageRefresh st = false ->
        ErrorBoundary.render branchData (ErrorBoundary.getDerivedStateFromError m st)
        = ErrorBoundary.ErrorScreen m
            (match branchData with
             | Some "" => false
             | Some _ => true
             | None => false
             end)) /\
    (forall errors : list string,
        ErrorBoundary.render branchData
          (fold_left ErrorBoundary.step (map ErrorBoundary.Caught errors)
             (ErrorBoundary.clickRefresh st))
        = ErrorBoundary.TryingAgain) /\
    (forall errors : list string,
        ErrorBoundary.render branchData
          (ErrorBoundary.timeout
             (fold_left ErrorBoundary.step (map ErrorBoundary.Caught errors)
                (ErrorBoundary.clickRefresh st)))
        = ErrorBoundary.Children).
Proof.
  intros st branchData. split; [|split].
  - intros m H. unfold ErrorBoundary.render, ErrorBoundary.getDerivedStateFromError.
    cbn. rewrite H. destruct branchData as [[|c d]|]; reflexivity.
  - intros errors.
    assert (R : forall s, ErrorBoundary.pageRefresh s = true ->
                          ErrorBoundary.pageRefresh
                            (fold_left ErrorBoundary.step
                               (map ErrorBoundary.Caught errors) s) = true).
    { induction errors as [|m errors IH]; intros s Hs; [exact Hs|]. apply IH. exact Hs. }
    unfold ErrorBoundary.render.
    rewrite (R (ErrorBoundary.clickRefresh st) eq_refl), andb_false_r. reflexivity.
  - intros errors. reflexivity.
Qed.

Lemma error_boundary_refresh_cycle_witness :
  ErrorBoundary.render (Some "feature-x")
    (ErrorBoundary.getDerivedStateFromError "Cannot read properties of undefined"
       (ErrorBoundary.constructor None))
  = ErrorBoundary.ErrorScreen "Cannot read properties of undefined" true.
Proof.
  apply (proj1 (error_boundary_refresh_cycle (ErrorBoundary.constructor None)
                  (Some "feature-x"))).
  reflexivity.
Defined.

(** ** The media manager *)

Lemma navigatePrev_last (h : list MediaPicker.MediaListOffset) (o : MediaPicker.MediaListOffset) :
  MediaPicker.navigatePrev (h ++ [o])%list = h.
Proof.
  unfold MediaPicker.navigatePrev. rewrite length_app. simpl.
  replace (length h + 1 - 1) with (length h + 0) by lia.
  rewrite firstn_app_2. simpl. apply app_nil_r.
Qed.

Lemma offset_last (h : list MediaPicker.MediaListOffset) (o : MediaPicker.MediaListOffset) :
  MediaPicker.offset (h ++ [o])%list = Some o.
Proof.
  unfold MediaPicker.offset.
  destruct (h ++ [o])%list as [|x l] eqn:E; [now destruct h|].
  rewrite <- E, length_app. simpl.
  rewrite nth_error_app2 by lia.
  replace (length h + 1 - 1 - length h) with 0 by lia. reflexivity.
Qed.

(** X19.  Paging forward and back in the media list.  When the list names a
    next offset that is truthy, [navigateNext] makes it the current offset and
    [navigatePrev] then restores the history; a next offset that is missing,
    [0] or [''] counts as no next page: [hasNext] is false and [navigateNext]
    changes nothing.  On the first page there is no previous one and
    [navigatePrev] changes nothing. *)
Theorem media_paging_next_then_prev :
  (forall (h : list MediaPicker.MediaListOffset) (o : MediaPicker.MediaListOffset),
      MediaPicker.hasNext (Some o) = true ->
      MediaPicker.offset (MediaPicker.navigateNext (Some o) h) = Some o /\
      MediaPicker.hasPrev (MediaPicker.navigateNext (Some o) h) = true /\
      MediaPicker.navigatePrev (MediaPicker.navigateNext (Some o) h) = h) /\
  (forall (h : list MediaPicker.MediaListOffset) (next : option MediaPicker.MediaListOffset),
      next = None \/ next = Some (MediaPicker.OffsetNumber 0) \/
      next = Some (MediaPicker.OffsetString "") ->
      MediaPicker.hasNext next = false /\ MediaPicker.navigateNext next h = h) /\
  (MediaPicker.offset MediaPicker.resetOffset = None /\
   MediaPicker.hasPrev MediaPicker.resetOffset = false /\
   MediaPicker.navigatePrev MediaPicker.resetOffset = MediaPicker.resetOffset).
Proof.
  split; [|split; [|repeat split]].
  - intros h o H. unfold MediaPicker.hasNext in H. unfold MediaPicker.navigateNext.
    rewrite H. cbn [negb]. split; [apply offset_last|]. split; [|apply navigatePrev_last].
    unfold MediaPicker.hasPrev. rewrite length_app. simpl.
    apply Nat.ltb_lt. lia.
  - intros h next [ -> | [ -> | -> ] ]; split; reflexivity.
Qed.

Lemma media_paging_next_then_prev_witness :
  MediaPicker.navigatePrev
    (MediaPicker.navigateNext (Some (MediaPicker.OffsetNumber 20))
       [MediaPicker.OffsetNumber 10])
  = [MediaPicker.OffsetNumber 10] /\
  MediaPicker.navigateNext (Some (MediaPicker.OffsetNumber 0)) [MediaPicker.OffsetNumber 10]
  = [MediaPicker.OffsetNumber 10].
Proof.
  split.
  - apply (proj1 media_paging_next_then_prev [MediaPicker.OffsetNumber 10]
             (MediaPicker.OffsetNumber 20)). reflexivity.
  - apply (proj1 (proj2 media_paging_next_then_prev) [MediaPicker.OffsetNumber 10]
             (Some (MediaPicker.OffsetNumber 0))). right. left. reflexivity.
Defined.

Lemma navigateNext_all (os h : list MediaPicker.MediaListOffset) :
  forallb (fun o => MediaPicker.hasNext (Some o)) os = true ->
  fold_left (fun h o => MediaPicker.navigateNext (Some o) h) os h = (h ++ os)%list.
Proof.
  revert h. induction os as [|o os IH]; intros h H; simpl.
  - now rewrite app_nil_r.
  - simpl in H. apply andb_true_iff in H. destruct H as [Ho Hos].
    assert (N : MediaPicker.navigateNext (Some o) h = (h ++ [o])%list).
    { destruct o as [[|k]|[|a t]]; try discriminate Ho; reflexivity. }
    rewrite N, (IH _ Hos), <- app_assoc. reflexivity.
Qed.

(** X20.  The offset history is a stack of the pages passed: after paging
    forward through any number of pages, the current offset is that of the
    last, and paging back as many times returns to the history, hence to the
    page, one started from. *)
Theorem media_paging_back_to_the_start :
  forall os h : list MediaPicker.MediaListOffset,
    forallb (fun o => MediaPicker.hasNext (Some o)) os = true ->
    MediaPicker.offset
      (fold_left (fun h o => MediaPicker.navigateNext (Some o) h) os h)
    = MediaPicker.offset (h ++ os)%list /\
    Nat.iter (length os) MediaPicker.navigatePrev
      (fold_left (fun h o => MediaPicker.navigateNext (Some o) h) os h) = h.
Proof.
  intros os h H. rewrite (navigateNext_all os h H). split; [reflexivity|].
  clear H. induction os as [|o os IH] using rev_ind; [simpl; apply app_nil_r|].
  rewrite length_app. simpl. rewrite Nat.add_1_r, Nat.iter_succ_r, app_assoc.
  rewrite navigatePrev_last. exact IH.
Qed.

Lemma media_paging_back_to_the_start_witness :
  Nat.iter 2 MediaPicker.navigatePrev
    (fold_left (fun h o => MediaPicker.navigateNext (Some o) h)
       [MediaPicker.OffsetString "cursor-b"; MediaPicker.OffsetString "cursor-c"]
       [MediaPicker.OffsetString "cursor-a"])
  = [MediaPicker.OffsetString "cursor-a"].
Proof.
  apply (proj2 (media_paging_back_to_the_start
                  [MediaPicker.OffsetString "cursor-b"; MediaPicker.OffsetString "cursor-c"]
                  [MediaPicker.OffsetString "cursor-a"] eq_refl)).
Defined.

(** X21.  The directory the picker opens.  The media base path is put in
    front of the requested directory, with nothing between them, only when
    both are non-empty; otherwise the picker opens the requested directory as
    given, so that a base path alone opens no directory. *)
Theorem media_directory_with_base_path :
  (forall base dir : string,
      String.eqb base "" = false -> String.eqb dir "" = false ->
      MediaPicker.directoryWithPath (Some base) (Some dir) = Some (base ++ dir)) /\
  (forall (base dir : option string),
      truthy base = false \/ truthy dir = false ->
      MediaPicker.directoryWithPath base dir = dir) /\
  (forall base : string, MediaPicker.directoryWithPath (Some base) None = None).
Proof.
  split; [|split].
  - intros [|a base] [|b dir] Hb Hd; try discriminate Hb; try discriminate Hd. reflexivity.
  - intros base dir [H|H]; unfold MediaPicker.directoryWithPath; rewrite H.
    + reflexivity.
    + now rewrite andb_false_r.
  - intros base. unfold MediaPicker.directoryWithPath.
    destruct base; reflexivity.
Qed.

Lemma media_directory_with_base_path_witness :
  MediaPicker.directoryWithPath (Some "/uploads") (Some "/2021")
  = Some "/uploads/2021" /\
  MediaPicker.directoryWithPath (Some "/uploads") (Some "") = Some "".
Proof.
  split.
  - apply (proj1 media_directory_with_base_path "/uploads" "/2021"); reflexivity.
  - apply (proj1 (proj2 media_directory_with_base_path) (Some "/uploads") (Some "")).
    right. reflexivity.
Defined.

(** X22.  What the picker shows after loading.  Without a media store the
    effect loads nothing and the picker tells that none is configured.  When
    the list arrives and nothing is being uploaded it shows the items, and the
    drop hint exactly when there is none.  When listing fails it shows the
    error's own title, message and link if the error is a [MediaListError],
    and those of the default error otherwise.  While files are being uploaded
    it shows the loading dots, whatever the state of the list. *)
Theorem media_picker_view :
  forall (Item : Type) (st : MediaPicker.State Item),
    (forall outcome,
        MediaPicker.render Item
          (MediaPicker.effect Item false outcome (MediaPicker.initial Item false))
        = MediaPicker.NoMediaStoreConfigured Item) /\
    (forall (shown : list Item) (next : option MediaPicker.MediaListOffset),
        MediaPicker.uploading st = false ->
        MediaPicker.render Item (MediaPicker.loadMedia Item (inr (shown, next)) st)
        = MediaPicker.Picker Item (match shown with [] => true | _ => false end) shown) /\
    (forall e : MediaPicker.ListFailure,
        MediaPicker.uploading st = false ->
        MediaPicker.render Item (MediaPicker.loadMedia Item (inl e) st)
        = if match MediaPicker.ERR_TYPE e with
             | Some t => String.eqb t "MediaListError"
             | None => false
             end
          then MediaPicker.ListError Item (MediaPicker.title e)
                 (MediaPicker.failure_message e) (MediaPicker.docsLink e)
          else MediaPicker.ListError Item "Error fetching media"
                 "Something went wrong while requesting the resource."
                 "https://tina.io/docs/media/#media-store") /\
    (MediaPicker.uploading st = true ->
     MediaPicker.render Item st = MediaPicker.LoadingMediaList Item).
Proof.
  intros Item st. split; [|split; [|split]].
  - reflexivity.
  - intros shown next H. unfold MediaPicker.render, MediaPicker.loadMedia. cbn.
    rewrite H. destruct shown; reflexivity.
  - intros e H. unfold MediaPicker.render, MediaPicker.loadMedia. cbn. rewrite H.
    destruct (MediaPicker.ERR_TYPE e) as [t|]; [|reflexivity].
    destruct (String.eqb t "MediaListError"); reflexivity.
  - intros H. unfold MediaPicker.render. rewrite H.
    destruct (MediaPicker.listState st); reflexivity.
Qed.

Lemma media_picker_view_witness :
  MediaPicker.render nat
    (MediaPicker.loadMedia nat
       (inl {| MediaPicker.ERR_TYPE := None; MediaPicker.title := "Network";
               MediaPicker.failure_message := "offline"; MediaPicker.docsLink := "" |})
       (MediaPicker.initial nat true))
  = MediaPicker.ListError nat "Error fetching media"
      "Something went wrong while requesting the resource."
      "https://tina.io/docs/media/#media-store".
Proof.
  apply (proj1 (proj2 (proj2 (media_picker_view nat (MediaPicker.initial nat true))))
           {| MediaPicker.ERR_TYPE := None; MediaPicker.title := "Network";
              MediaPicker.failure_message := "offline"; MediaPicker.docsLink := "" |}).
  reflexivity.
Defined.
